(** * cs_k8s: the Kubernetes cluster module of the CloudStack collection

    A shallow embedding of [plugins/modules/cs_k8s.py] and the properties
    of its reconciliation logic.

    The module is a Python class [AnsibleCloudStackKubernetes] whose methods
    read the task parameters, talk to the CloudStack API through
    [query_api] and [poll_job], keep three memo fields ([self.k8s],
    [self.version], [self.service_offering]) and a result dictionary
    ([self.result], holding the [changed] flag).  It is embedded as a state
    and error monad over a record of these fields, extended with the trace
    of the API calls issued so far and with the state of the remote cloud.
    The remote cloud is a parameter of the development. *)

From stdpp Require Import gmap strings list fin_maps.
From Stdlib Require Import ZArith Ascii String.
From stdpp Require Import strings.

#[local] Set Warnings "-register-all,-clear-no-such-hyp".
#[local] Open Scope Z_scope.

(** ** Python values

    JSON-like values, as the API responses and the cluster records are
    dictionaries decoded from JSON.  Strings are byte strings; [lower]
    follows Python's [str.lower] on ASCII letters. *)

Inductive value :=
| VNone
| VBool (b : bool)
| VInt (z : Z)
| VStr (s : string)
| VList (l : list value)
| VDict (d : gmap string value).

#[global] Instance value_eq_dec : EqDecision value.
Proof.
  refine (fix go (x y : value) {struct x} : Decision (x = y) :=
    let _ : EqDecision value := @go in
    match x, y with
    | VNone, VNone => left _
    | VBool a, VBool b => cast_if (decide (a = b))
    | VInt a, VInt b => cast_if (decide (a = b))
    | VStr a, VStr b => cast_if (decide (a = b))
    | VList a, VList b => cast_if (decide (a = b))
    | VDict a, VDict b => cast_if (decide (a = b))
    | _, _ => right _
    end); abstract congruence.
Defined.

#[global] Instance value_inhabited : Inhabited value := populate VNone.

(** Uncaught Python exceptions that the module can run into. *)
Inductive exn :=
| KeyError (k : string)
| IndexError
| TypeError
| AttributeError.

(** The three ways a step ends: a value, [module.fail_json(msg=...)], or an
    uncaught exception. *)
Inductive outcome (A : Type) :=
| Ok (a : A)
| FailJson (msg : string)
| Raise (e : exn).
Arguments Ok {A} a.
Arguments FailJson {A} msg.
Arguments Raise {A} e.

Definition obind {A B} (o : outcome A) (k : A → outcome B) : outcome B :=
  match o with
  | Ok a => k a
  | FailJson msg => FailJson msg
  | Raise e => Raise e
  end.

Declare Scope py_scope.
Delimit Scope py_scope with py.
Notation "x <~ o ;; k" := (obind o (fun x => k))
  (at level 100, o at next level, right associativity) : py_scope.

(** Python truthiness: [if x:] and [not x]. *)
Definition truthy (v : value) : bool :=
  match v with
  | VNone => false
  | VBool b => b
  | VInt z => negb (z =? 0)
  | VStr s => negb (String.eqb s "")
  | VList l => match l with [] => false | _ => true end
  | VDict d => negb (bool_decide (d = ∅))
  end.

Definition lower_char (c : ascii) : ascii :=
  let n := nat_of_ascii c in
  if ((65 <=? n) && (n <=? 90))%nat then ascii_of_nat (n + 32) else c.

Fixpoint lower_string (s : string) : string :=
  match s with
  | EmptyString => EmptyString
  | String c s' => String (lower_char c) (lower_string s')
  end.

(** [x.lower()] *)
Definition lower (v : value) : outcome value :=
  match v with
  | VStr s => Ok (VStr (lower_string s))
  | _ => Raise AttributeError
  end.

(** [x[key]] for a string key *)
Definition subscript (v : value) (key : string) : outcome value :=
  match v with
  | VDict d => match d !! key with
               | Some x => Ok x
               | None => Raise (KeyError key)
               end
  | _ => Raise TypeError
  end.

(** [x[0]] *)
Definition index0 (v : value) : outcome value :=
  match v with
  | VList (x :: _) => Ok x
  | VList [] => Raise IndexError
  | VStr (String c _) => Ok (VStr (String c EmptyString))
  | VStr EmptyString => Raise IndexError
  | VDict _ => Raise (KeyError "0")
  | _ => Raise TypeError
  end.

(** [key in x] for a string key: key membership on a dictionary, element
    membership on a list, substring test on a string. *)
Definition contains (key : string) (v : value) : outcome bool :=
  match v with
  | VDict d => Ok (bool_decide (is_Some (d !! key)))
  | VList l => Ok (bool_decide (VStr key ∈ l))
  | VStr s => Ok (bool_decide (is_Some (String.index 0 key s)))
  | _ => Raise TypeError
  end.

(** [x[key] = item] *)
Definition set_item (v : value) (key : string) (item : value) : outcome value :=
  match v with
  | VDict d => Ok (VDict (<[key := item]> d))
  | _ => Raise TypeError
  end.

Fixpoint chars (s : string) : list value :=
  match s with
  | EmptyString => []
  | String c s' => VStr (String c EmptyString) :: chars s'
  end.

(** [for v in x]: the elements the loop visits. *)
Definition iterate (v : value) : outcome (list value) :=
  match v with
  | VList l => Ok l
  | VDict d => Ok ((λ kv, VStr kv.1) <$> map_to_list d)
  | VStr s => Ok (chars s)
  | _ => Raise TypeError
  end.

(** ["%s" % x] for a parameter that is a string or [None]. *)
Definition py_str (v : value) : string :=
  match v with
  | VStr s => s
  | _ => "None"
  end.

(** A field of a record, when the value is a dictionary that has it. *)
Definition field (v : value) (key : string) : option value :=
  match v with
  | VDict d => d !! key
  | _ => None
  end.

(** ** Task parameters

    [module.params] after validation by [AnsibleModule]: the declared
    options with their declared types.  [p_id] stands for
    [params.get('id')], which [get_k8s] reads although the argument
    specification of [main] declares no such option. *)

Inductive lifecycle := present | enabled | disabled | absent.

Record docker_registry := {
  url : option string;
  username : option string;
  password : option string
}.

Record params := {
  p_id : option string;
  p_account : option string;
  p_control_nodes : option Z;
  p_description : option string;
  p_docker_registry : option docker_registry;
  p_domain : option string;
  p_load_balancer : option string;
  p_name : string;
  p_network : option string;
  p_poll_async : bool;
  p_project : option string;
  p_root_disk : option Z;
  p_service_offering : option string;
  p_size : option Z;
  p_ssh_key : option string;
  p_state : lifecycle;
  p_version : option string;
  p_zone : string;
  check_mode : bool
}.

Definition of_str (o : option string) : value :=
  match o with Some s => VStr s | None => VNone end.

Definition of_int (o : option Z) : value :=
  match o with Some z => VInt z | None => VNone end.

Definition of_lifecycle (l : lifecycle) : string :=
  match l with
  | present => "present"
  | enabled => "enabled"
  | disabled => "disabled"
  | absent => "absent"
  end.

Definition of_docker_registry (o : option docker_registry) : value :=
  match o with
  | Some r => VDict (list_to_map [("url", of_str (url r));
                                  ("username", of_str (username r));
                                  ("password", of_str (password r))])
  | None => VNone
  end.

(** [module.params.get(key)] *)
Definition params_get (p : params) (key : string) : value :=
  if String.eqb key "id" then of_str (p_id p)
  else if String.eqb key "account" then of_str (p_account p)
  else if String.eqb key "control_nodes" then of_int (p_control_nodes p)
  else if String.eqb key "description" then of_str (p_description p)
  else if String.eqb key "docker_registry" then of_docker_registry (p_docker_registry p)
  else if String.eqb key "domain" then of_str (p_domain p)
  else if String.eqb key "load_balancer" then of_str (p_load_balancer p)
  else if String.eqb key "name" then VStr (p_name p)
  else if String.eqb key "network" then of_str (p_network p)
  else if String.eqb key "poll_async" then VBool (p_poll_async p)
  else if String.eqb key "project" then of_str (p_project p)
  else if String.eqb key "root_disk" then of_int (p_root_disk p)
  else if String.eqb key "service_offering" then of_str (p_service_offering p)
  else if String.eqb key "size" then of_int (p_size p)
  else if String.eqb key "ssh_key" then of_str (p_ssh_key p)
  else if String.eqb key "state" then VStr (of_lifecycle (p_state p))
  else if String.eqb key "version" then of_str (p_version p)
  else if String.eqb key "zone" then VStr (p_zone p)
  else VNone.
Arguments params_get : simpl never.

(** ** The module object

    The fields of [AnsibleCloudStackKubernetes] that the methods read and
    write, the trace of the calls made through [query_api] (oldest first),
    and the state of the remote cloud. *)

Record acs (World : Type) := {
  self_k8s : value;
  self_version : value;
  self_service_offering : value;
  self_result : gmap string value;
  calls : list (string * gmap string value);
  remote : World
}.
Arguments self_k8s {World} _.
Arguments self_version {World} _.
Arguments self_service_offering {World} _.
Arguments self_result {World} _.
Arguments calls {World} _.
Arguments remote {World} _.

(** The object as [__init__] leaves it; [changed] starts out false. *)
Definition init {World} (w : World) : acs World :=
  {| self_k8s := VNone; self_version := VNone; self_service_offering := VNone;
     self_result := {[ "changed" := VBool false ]};
     calls := []; remote := w |}.

Definition with_k8s {World} (v : value) (st : acs World) : acs World :=
  {| self_k8s := v; self_version := self_version st;
     self_service_offering := self_service_offering st;
     self_result := self_result st; calls := calls st; remote := remote st |}.

Definition with_version {World} (v : value) (st : acs World) : acs World :=
  {| self_k8s := self_k8s st; self_version := v;
     self_service_offering := self_service_offering st;
     self_result := self_result st; calls := calls st; remote := remote st |}.

Definition with_service_offering {World} (v : value) (st : acs World) : acs World :=
  {| self_k8s := self_k8s st; self_version := self_version st;
     self_service_offering := v;
     self_result := self_result st; calls := calls st; remote := remote st |}.

Definition with_result {World} (key : string) (v : value) (st : acs World) : acs World :=
  {| self_k8s := self_k8s st; self_version := self_version st;
     self_service_offering := self_service_offering st;
     self_result := <[key := v]> (self_result st);
     calls := calls st; remote := remote st |}.

Definition with_call {World} (c : string * gmap string value) (w : World)
    (st : acs World) : acs World :=
  {| self_k8s := self_k8s st; self_version := self_version st;
     self_service_offering := self_service_offering st;
     self_result := self_result st; calls := calls st ++ [c]; remote := w |}.

Definition with_remote {World} (w : World) (st : acs World) : acs World :=
  {| self_k8s := self_k8s st; self_version := self_version st;
     self_service_offering := self_service_offering st;
     self_result := self_result st; calls := calls st; remote := w |}.

(** The [changed] flag of the report. *)
Definition changed {World} (st : acs World) : option value :=
  self_result st !! "changed".

(** The calls that change the remote cluster. *)
Definition mutating_commands : list string :=
  ["createKubernetesCluster"; "upgradeKubernetesCluster"; "scaleKubernetesCluster";
   "startKubernetesCluster"; "stopKubernetesCluster"; "deleteKubernetesCluster"].

Definition mutating (c : string * gmap string value) : bool :=
  bool_decide (c.1 ∈ mutating_commands).

Definition is_command (command : string) (c : string * gmap string value) : bool :=
  String.eqb c.1 command.

Definition count_calls (command : string) (l : list (string * gmap string value)) : nat :=
  List.length (filter (λ c, is_command command c = true) l).

(** ** The monad of the methods *)

Definition M (World A : Type) : Type := acs World → outcome A * acs World.

Definition ret {World A} (a : A) : M World A := λ st, (Ok a, st).

Definition bind {World A B} (m : M World A) (k : A → M World B) : M World B :=
  λ st, match (m st).1 with
        | Ok a => k a (m st).2
        | FailJson msg => (FailJson msg, (m st).2)
        | Raise e => (Raise e, (m st).2)
        end.

Definition lift {World A} (o : outcome A) : M World A := λ st, (o, st).

Definition fail_json {World A} (msg : string) : M World A := lift (FailJson msg).

Definition gets {World A} (f : acs World → A) : M World A := λ st, (Ok (f st), st).

Definition modify {World} (f : acs World → acs World) : M World unit :=
  λ st, (Ok tt, f st).

Notation "x <- m ;; k" := (bind m (fun x => k))
  (at level 100, m at next level, right associativity) : py_scope.
Notation "m ;;; k" := (bind m (fun _ => k))
  (at level 100, right associativity) : py_scope.

#[local] Open Scope py_scope.

(** ** The methods of [AnsibleCloudStackKubernetes] *)

Section Methods.
Context {World : Type}.

(** The API client (an external collaborator): [api command args w] is
    the response to the call in the remote state [w], or the failure the
    client reports through [fail_json], with the remote state after the
    call; [poll job key w] waits for the job and gives its final record. *)
Variable api : string → gmap string value → World → outcome value * World.
Variable poll : value → string → World → outcome value * World.

(** Modelled from the spec: the resolvers [get_account], [get_domain],
    [get_project], [get_zone] and [get_network] belong to the base class
    [AnsibleCloudStack], which is not part of the module file.  They turn
    the name given in the parameters into the requested key of the
    matching catalog entry by read-only catalog queries, or fail. *)
Variable resolve : params → string → string → World → outcome value.

(** The result projector [get_result] of the base class (an external
    collaborator): the report made of the final record and [self.result]. *)
Variable get_result : value → gmap string value → gmap string value.

Variable p : params.

#[local] Abbreviation M := (M World).

Definition query_api (command : string) (args : gmap string value) : M value :=
  λ st, ((api command args (remote st)).1,
         with_call (command, args) (api command args (remote st)).2 st).

Definition poll_job (job : value) (key : string) : M value :=
  λ st, ((poll job key (remote st)).1,
         with_remote (poll job key (remote st)).2 st).

Definition get_account (key : string) : M value :=
  λ st, (resolve p "account" key (remote st), st).
Definition get_domain (key : string) : M value :=
  λ st, (resolve p "domain" key (remote st), st).
Definition get_project (key : string) : M value :=
  λ st, (resolve p "project" key (remote st), st).
Definition get_zone (key : string) : M value :=
  λ st, (resolve p "zone" key (remote st), st).
Definition get_network (key : string) : M value :=
  λ st, (resolve p "network" key (remote st), st).

(** Modelled from the spec: [has_changed] belongs to the base class
    [AnsibleCloudStack], which is not part of the module file.  The
    comparison is exact equality of each desired value, among the keys of
    [only_keys], against the corresponding field of the record; a key
    whose desired value is absent or [None] is left out of it. *)
Definition has_changed (want : gmap string value) (current : value)
    (only_keys : list string) : bool :=
  existsb (λ key, match want !! key with
                  | None | Some VNone => false
                  | Some v => negb (bool_decide (field current key = Some v))
                  end) only_keys.

(** Modelled from the spec: [_get_by_key] belongs to the base class
    [AnsibleCloudStack], which is not part of the module file.  It gives
    the requested key of a resolved catalog entry. *)
Definition _get_by_key (key : string) (my_dict : value) : M value :=
  lift (subscript my_dict key).

(** [AnsibleModule.fail_on_missing_params]: a parameter counts as missing
    when [not params.get(name)]. *)
Definition fail_on_missing_params (required_params : list string) : M unit :=
  match filter (λ k, truthy (params_get p k) = false) required_params with
  | [] => ret tt
  | missing =>
      fail_json ("missing required arguments: " +:+ String.concat ", " missing)
  end.

(** The loop of [get_version] and of [get_service_offering]:
    [if wanted.lower() in [v['name'].lower(), v['id']]], entry by entry. *)
Fixpoint find_entry (wanted : value) (entries : list value) : outcome (option value) :=
  match entries with
  | [] => Ok None
  | v :: rest =>
      w <~ lower wanted ;;
      n <~ subscript v "name" ;;
      n' <~ lower n ;;
      i <~ subscript v "id" ;;
      if bool_decide (w = n') || bool_decide (w = i) then Ok (Some v)
      else find_entry wanted rest
  end.

Definition get_version (key : string) : M value :=
  cached <- gets self_version ;;
  if truthy cached then _get_by_key key cached
  else
    let version := params_get p "version" in
    versions <- query_api "listKubernetesSupportedVersions" ∅ ;;
    if negb (truthy versions) then
      fail_json "No Kubernetes versions available. Please create a version first"
    else
      l <- lift (subscript versions "kubernetessupportedversion") ;;
      entries <- lift (iterate l) ;;
      found <- lift (find_entry version entries) ;;
      match found with
      | Some v =>
          name <- lift (subscript v "name") ;;
          modify (with_result "version" name) ;;;
          modify (with_version v) ;;;
          _get_by_key key v
      | None => fail_json ("version '" +:+ py_str version +:+ "' not found")
      end.

Definition get_service_offering (key : string) : M value :=
  cached <- gets self_service_offering ;;
  if truthy cached then _get_by_key key cached
  else
    let service_offering := params_get p "service_offering" in
    service_offerings <- query_api "listServiceOfferings" ∅ ;;
    if negb (truthy service_offerings) then
      fail_json "No service offerings available. Please create a service offering first"
    else
      l <- lift (subscript service_offerings "serviceoffering") ;;
      entries <- lift (iterate l) ;;
      found <- lift (find_entry service_offering entries) ;;
      match found with
      | Some o =>
          name <- lift (subscript o "name") ;;
          modify (with_result "service_offering" name) ;;;
          modify (with_service_offering o) ;;;
          _get_by_key key o
      | None =>
          fail_json ("service offering '" +:+ py_str service_offering +:+ "' not found")
      end.

(** [k8s['kubernetescluster'][0]] *)
Definition first_cluster (k8s : value) : outcome value :=
  l <~ subscript k8s "kubernetescluster" ;; index0 l.

(** The first lookup of [get_k8s], made when [params.get('id')] is set:
    [Some c] stands for the early [return self.k8s]. *)
Definition get_k8s_by_id (uuid : value) : M (option value) :=
  if truthy uuid then
    k8s <- query_api "listKubernetesClusters" {[ "id" := uuid ]} ;;
    if truthy k8s then
      c <- lift (first_cluster k8s) ;;
      modify (with_k8s c) ;;;
      ret (Some c)
    else ret None
  else ret None.

Definition get_k8s : M value :=
  cur <- gets self_k8s ;;
  if negb (truthy cur) then
    let uuid := params_get p "id" in
    early <- get_k8s_by_id uuid ;;
    match early with
    | Some c => ret c
    | None =>
        let args : gmap string value := if truthy uuid then {[ "id" := uuid ]} else ∅ in
        let args := <[ "name" := params_get p "name" ]> args in
        k8s <- query_api "listKubernetesClusters" args ;;
        (if truthy k8s then
           c <- lift (first_cluster k8s) ;;
           modify (with_k8s c)
         else ret tt) ;;;
        gets self_k8s
    end
  else gets self_k8s.

(** The lines that follow every mutating call:
    [k8s = self.query_api(command, **args)], then, [if poll_async],
    [k8s = self.poll_job(k8s, 'kubernetescluster')]. *)
Definition call_polled (command : string) (args : gmap string value) : M value :=
  k8s <- query_api command args ;;
  if truthy (params_get p "poll_async") then poll_job k8s "kubernetescluster"
  else ret k8s.

Definition set_changed : M unit := modify (with_result "changed" (VBool true)).

(** The dictionary [args] of [_create_k8s], from the values of its entries
    in the order in which the method computes them. *)
Definition create_args (account dockerregistrypassword dockerregistryurl
    dockerregistryusername domainid kubernetesversionid networkid projectid
    serviceofferingid zoneid : value) : gmap string value :=
  list_to_map [
    ("account", account);
    ("controlnodes", params_get p "control_nodes");
    ("description", params_get p "description");
    ("dockerregistrypassword", dockerregistrypassword);
    ("dockerregistryurl", dockerregistryurl);
    ("dockerregistryusername", dockerregistryusername);
    ("domainid", domainid);
    ("externalloadbalanceripaddress", params_get p "load_balancer");
    ("keypair", params_get p "ssh_key");
    ("kubernetesversionid", kubernetesversionid);
    ("name", params_get p "name");
    ("networkid", networkid);
    ("noderootdisksize", params_get p "root_disk");
    ("projectid", projectid);
    ("serviceofferingid", serviceofferingid);
    ("size", params_get p "size");
    ("zoneid", zoneid)].

(** The [docker_registry] of [_create_k8s] after its [if not]. *)
Definition registry_or_nulls : value :=
  let docker_registry := params_get p "docker_registry" in
  if negb (truthy docker_registry)
  then VDict (list_to_map [("url", VNone); ("username", VNone); ("password", VNone)])
  else docker_registry.

Definition _create_k8s : M value :=
  fail_on_missing_params
    ["description"; "name"; "service_offering"; "size"; "version"; "zone"] ;;;
  let docker_registry := registry_or_nulls in
  account <- get_account "id" ;;
  dockerregistrypassword <- lift (subscript docker_registry "password") ;;
  dockerregistryurl <- lift (subscript docker_registry "url") ;;
  dockerregistryusername <- lift (subscript docker_registry "username") ;;
  domainid <- get_domain "id" ;;
  kubernetesversionid <- get_version "id" ;;
  networkid <- get_network "id" ;;
  projectid <- get_project "id" ;;
  serviceofferingid <- get_service_offering "id" ;;
  zoneid <- get_zone "id" ;;
  let args := create_args account dockerregistrypassword dockerregistryurl
                dockerregistryusername domainid kubernetesversionid networkid
                projectid serviceofferingid zoneid in
  set_changed ;;;
  if negb (check_mode p) then call_polled "createKubernetesCluster" args
  else ret VNone.

(** The dictionaries [args], [upgrade_args] and [scale_args] of
    [_update_k8s]. *)
Definition update_args (id kubernetesversionid serviceofferingid : value)
    : gmap string value :=
  list_to_map [
    ("id", id);
    ("kubernetesversionid", kubernetesversionid);
    ("serviceofferingid", serviceofferingid);
    ("size", params_get p "size")].

Definition upgrade_args (id kubernetesversionid : value) : gmap string value :=
  list_to_map [("id", id); ("kubernetesversionid", kubernetesversionid)].

Definition scale_args (id serviceofferingid size : value) : gmap string value :=
  list_to_map [("id", id); ("serviceofferingid", serviceofferingid); ("size", size)].

(** The version group and the scale group of [_update_k8s]: each takes the
    record as the method holds it and gives the record to go on with. *)
Definition version_group (args : gmap string value) (k8s : value) : M value :=
  if has_changed args k8s ["kubernetesversionid"] then
    set_changed ;;;
    if negb (check_mode p) then
      id <- lift (subscript (VDict args) "id") ;;
      kubernetesversionid <- get_version "id" ;;
      call_polled "upgradeKubernetesCluster" (upgrade_args id kubernetesversionid)
    else ret k8s
  else ret k8s.

Definition scale_group (args : gmap string value) (k8s : value) : M value :=
  if has_changed args k8s ["serviceofferingid"; "size"] then
    set_changed ;;;
    if negb (check_mode p) then
      id <- lift (subscript (VDict args) "id") ;;
      serviceofferingid <- get_service_offering "id" ;;
      size <- lift (subscript (VDict args) "size") ;;
      call_polled "scaleKubernetesCluster" (scale_args id serviceofferingid size)
    else ret k8s
  else ret k8s.

Definition _update_k8s : M value :=
  k8s <- get_k8s ;;
  id <- lift (subscript k8s "id") ;;
  kubernetesversionid <- get_version "id" ;;
  serviceofferingid <- get_service_offering "id" ;;
  let args := update_args id kubernetesversionid serviceofferingid in
  k8s <- version_group args k8s ;;
  k8s <- scale_group args k8s ;;
  ret k8s.

(** [k8s['state'].lower()] *)
Definition state_lower (k8s : value) : outcome value :=
  s <~ subscript k8s "state" ;; lower s.

(** [s in [...]] for a list of string literals *)
Definition among (s : value) (states : list string) : bool :=
  bool_decide (s ∈ (VStr <$> states)).

Definition start_k8s : M value :=
  k8s <- get_k8s ;;
  if truthy k8s then
    s <- lift (state_lower k8s) ;;
    if among s ["starting"; "running"] then ret k8s
    else if among s ["stopped"; "stopping"] then
      set_changed ;;;
      if negb (check_mode p) then
        id <- lift (subscript k8s "id") ;;
        call_polled "startKubernetesCluster" {[ "id" := id ]}
      else ret k8s
    else ret k8s
  else ret k8s.

Definition stop_k8s : M value :=
  k8s <- get_k8s ;;
  if truthy k8s then
    s <- lift (state_lower k8s) ;;
    if among s ["stopping"; "stopped"] then ret k8s
    else if among s ["starting"; "running"] then
      set_changed ;;;
      if negb (check_mode p) then
        id <- lift (subscript k8s "id") ;;
        call_polled "stopKubernetesCluster" {[ "id" := id ]}
      else ret k8s
    else ret k8s
  else ret k8s.

Definition absent_k8s : M value :=
  k8s <- get_k8s ;;
  if truthy k8s then
    set_changed ;;;
    if negb (check_mode p) then
      id <- lift (subscript k8s "id") ;;
      call_polled "deleteKubernetesCluster" {[ "id" := id ]}
    else ret k8s
  else ret k8s.

(** The body of the [if] of [_k8s_config]. *)
Definition fetch_config (k8s : value) : M value :=
  id <- lift (subscript k8s "id") ;;
  config <- query_api "getKubernetesClusterConfig" {[ "id" := id ]} ;;
  if truthy config then
    has_payload <- lift (contains "clusterconfig" config) ;;
    if has_payload then
      clusterconfig <- lift (subscript config "clusterconfig") ;;
      configdata <- lift (subscript clusterconfig "configdata") ;;
      k8s <- lift (set_item k8s "config" configdata) ;;
      modify (with_k8s k8s) ;;;
      ret k8s
    else ret k8s
  else ret k8s.

Definition _k8s_config : M value :=
  k8s <- get_k8s ;;
  if truthy k8s then
    has_config <- lift (contains "config" k8s) ;;
    if negb has_config then fetch_config k8s else ret k8s
  else ret k8s.

Definition present_k8s : M value :=
  k8s <- get_k8s ;;
  k8s <- (if truthy k8s then _update_k8s else _create_k8s) ;;
  if truthy k8s then
    modify (with_k8s k8s) ;;;
    _k8s_config
  else ret k8s.

(** The dispatch of [main] on [state]. *)
Definition start_or_stop : M value :=
  match p_state p with
  | disabled => stop_k8s
  | _ => start_k8s
  end.

Definition reconcile : M value :=
  match p_state p with
  | absent => absent_k8s
  | _ => present_k8s ;;; start_or_stop
  end.

(** The check that ends [main]:
    [if k8s and 'state' in k8s and k8s['state'].lower() == 'error'] *)
Definition final_check (k8s : value) : M unit :=
  if truthy k8s then
    has_state <- lift (contains "state" k8s) ;;
    if has_state then
      s <- lift (state_lower k8s) ;;
      if bool_decide (s = VStr "error") then
        fail_json ("Kubernetes cluster named '" +:+ py_str (params_get p "name")
                   +:+ "' in error state.")
      else ret tt
    else ret tt
  else ret tt.

Definition main : M (gmap string value) :=
  k8s <- reconcile ;;
  final_check k8s ;;;
  result <- gets self_result ;;
  ret (get_result k8s result).

End Methods.

(** ** A reference cloud

    A small CloudStack to run the module against: the two catalogs, at most
    one cluster, jobs that finish at once.  Every mutating call answers
    with a job handle; polling the handle gives the cluster record as the
    job left it. *)

Module Cloud.

Record t := {
  versions : value;
  offerings : value;
  cluster : value
}.

Definition with_cluster (c : value) (w : t) : t :=
  {| versions := versions w; offerings := offerings w; cluster := c |}.

Definition selected (args : gmap string value) (c : value) : bool :=
  truthy c
  && match args !! "id" with
     | Some i => bool_decide (field c "id" = Some i)
     | None => true
     end
  && match args !! "name" with
     | Some n => bool_decide (field c "name" = Some n)
     | None => true
     end.

Definition update (fields : list (string * value)) (c : value) : value :=
  match c with
  | VDict d => VDict (list_to_map fields ∪ d)
  | _ => c
  end.

Definition arg (args : gmap string value) (key : string) : value :=
  default VNone (args !! key).

Definition job (fields : list (string * value)) : value :=
  VDict (<[ "jobid" := VStr "job-1" ]> (list_to_map fields)).

(** A mutating call on the existing cluster named by [args]. *)
Definition on_cluster (args : gmap string value) (f : value → value) (w : t)
    : outcome value * t :=
  if selected args (cluster w) then (Ok (job []), with_cluster (f (cluster w)) w)
  else (FailJson "Invalid cluster id specified", w).

Definition api (command : string) (args : gmap string value) (w : t)
    : outcome value * t :=
  if String.eqb command "listKubernetesSupportedVersions" then (Ok (versions w), w)
  else if String.eqb command "listServiceOfferings" then (Ok (offerings w), w)
  else if String.eqb command "listKubernetesClusters" then
    (Ok (if selected args (cluster w)
         then VDict (list_to_map [("count", VInt 1);
                                  ("kubernetescluster", VList [cluster w])])
         else VDict ∅), w)
  else if String.eqb command "getKubernetesClusterConfig" then
    (Ok (VDict {[ "clusterconfig" :=
                   VDict {[ "configdata" := VStr "apiVersion: v1" ]} ]}), w)
  else if String.eqb command "createKubernetesCluster" then
    (Ok (job [("id", VStr "k8s-1")]),
     with_cluster (VDict (list_to_map [
       ("id", VStr "k8s-1");
       ("name", arg args "name");
       ("kubernetesversionid", arg args "kubernetesversionid");
       ("serviceofferingid", arg args "serviceofferingid");
       ("size", arg args "size");
       ("state", VStr "Running")])) w)
  else if String.eqb command "upgradeKubernetesCluster" then
    on_cluster args
      (update [("kubernetesversionid", arg args "kubernetesversionid")]) w
  else if String.eqb command "scaleKubernetesCluster" then
    on_cluster args
      (update [("serviceofferingid", arg args "serviceofferingid");
               ("size", arg args "size")]) w
  else if String.eqb command "startKubernetesCluster" then
    on_cluster args (update [("state", VStr "Running")]) w
  else if String.eqb command "stopKubernetesCluster" then
    on_cluster args (update [("state", VStr "Stopped")]) w
  else if String.eqb command "deleteKubernetesCluster" then
    on_cluster args (λ _, VNone) w
  else (FailJson "Unknown API command", w).

(** The job result: the cluster record when there is one, else the handle. *)
Definition poll (job : value) (key : string) (w : t) : outcome value * t :=
  (Ok (if truthy (cluster w) then cluster w else job), w).

(** The other references resolve to an identifier made of their kind, and
    to [None] when the parameter is not given. *)
Definition resolve (p : params) (kind key : string) (w : t) : outcome value :=
  Ok (if truthy (params_get p kind) then VStr (kind +:+ "-" +:+ key) else VNone).

(** The report: the fields of the record next to those of [self.result]. *)
Definition get_result (k8s : value) (result : gmap string value) : gmap string value :=
  match k8s with
  | VDict d => result ∪ d
  | _ => result
  end.

Definition entry (id name : string) : value :=
  VDict (list_to_map [("id", VStr id); ("name", VStr name)]).

Definition catalog (key : string) (entries : list value) : value :=
  VDict (list_to_map [("count", VInt (Z.of_nat (List.length entries)));
                      (key, VList entries)]).

(** A cloud with two Kubernetes versions, two offerings and no cluster. *)
Definition empty : t :=
  {| versions := catalog "kubernetessupportedversion"
                   [entry "v-126" "v1.26.0"; entry "v-127" "v1.27.3"];
     offerings := catalog "serviceoffering" [entry "o-23" "CH23"; entry "o-42" "CH42"];
     cluster := VNone |}.

(** A cluster as a create call leaves it. *)
Definition record (version offering : string) (size : Z) (state : string) : value :=
  VDict (list_to_map [
    ("id", VStr "k8s-1");
    ("name", VStr "k8s-cluster-01");
    ("kubernetesversionid", VStr version);
    ("serviceofferingid", VStr offering);
    ("size", VInt size);
    ("state", VStr state)]).

(** The task of the module's first example. *)
Definition task : params :=
  {| p_id := None; p_account := None; p_control_nodes := None;
     p_description := Some "Kubernetes cluster"; p_docker_registry := None;
     p_domain := None; p_load_balancer := None; p_name := "k8s-cluster-01";
     p_network := None; p_poll_async := true; p_project := None;
     p_root_disk := None; p_service_offering := Some "CH23"; p_size := Some 4;
     p_ssh_key := None; p_state := present; p_version := Some "v1.27.3";
     p_zone := "ch-zrh-ix-01"; check_mode := false |}.

Definition with_state (l : lifecycle) (p : params) : params :=
  {| p_id := p_id p; p_account := p_account p; p_control_nodes := p_control_nodes p;
     p_description := p_description p; p_docker_registry := p_docker_registry p;
     p_domain := p_domain p; p_load_balancer := p_load_balancer p;
     p_name := p_name p; p_network := p_network p; p_poll_async := p_poll_async p;
     p_project := p_project p; p_root_disk := p_root_disk p;
     p_service_offering := p_service_offering p; p_size := p_size p;
     p_ssh_key := p_ssh_key p; p_state := l; p_version := p_version p;
     p_zone := p_zone p; check_mode := check_mode p |}.

Definition with_check_mode (b : bool) (p : params) : params :=
  {| p_id := p_id p; p_account := p_account p; p_control_nodes := p_control_nodes p;
     p_description := p_description p; p_docker_registry := p_docker_registry p;
     p_domain := p_domain p; p_load_balancer := p_load_balancer p;
     p_name := p_name p; p_network := p_network p; p_poll_async := p_poll_async p;
     p_project := p_project p; p_root_disk := p_root_disk p;
     p_service_offering := p_service_offering p; p_size := p_size p;
     p_ssh_key := p_ssh_key p; p_state := p_state p; p_version := p_version p;
     p_zone := p_zone p; check_mode := b |}.

Definition with_poll_async (b : bool) (p : params) : params :=
  {| p_id := p_id p; p_account := p_account p; p_control_nodes := p_control_nodes p;
     p_description := p_description p; p_docker_registry := p_docker_registry p;
     p_domain := p_domain p; p_load_balancer := p_load_balancer p;
     p_name := p_name p; p_network := p_network p; p_poll_async := b;
     p_project := p_project p; p_root_disk := p_root_disk p;
     p_service_offering := p_service_offering p; p_size := p_size p;
     p_ssh_key := p_ssh_key p; p_state := p_state p; p_version := p_version p;
     p_zone := p_zone p; check_mode := check_mode p |}.


Definition with_version_name (v : option string) (p : params) : params :=
  {| p_id := p_id p; p_account := p_account p; p_control_nodes := p_control_nodes p;
     p_description := p_description p; p_docker_registry := p_docker_registry p;
     p_domain := p_domain p; p_load_balancer := p_load_balancer p;
     p_name := p_name p; p_network := p_network p; p_poll_async := p_poll_async p;
     p_project := p_project p; p_root_disk := p_root_disk p;
     p_service_offering := p_service_offering p; p_size := p_size p;
     p_ssh_key := p_ssh_key p; p_state := p_state p; p_version := v;
     p_zone := p_zone p; check_mode := check_mode p |}.

(** The value of a step that has ended well. *)
Definition value_of (o : outcome value) : value :=
  match o with
  | Ok v => v
  | _ => VNone
  end.

(** A cloud with the cluster [c]. *)
Definition holding (c : value) : t := with_cluster c empty.

(** One invocation of the module against the cloud [w]. *)
Definition run (p : params) (w : t) : outcome (gmap string value) * acs t :=
  main api poll resolve get_result p (init w).

(** The commands of the calls an invocation has made, oldest first. *)
Definition commands (r : outcome (gmap string value) * acs t) : list string :=
  (calls r.2).*1.

End Cloud.

(** ** The state table of the spec

    The command that a lifecycle target asks for in a given state of the
    cluster, if any, in the words of the spec: for [enabled] (and the
    default [present]) the states starting and running are left alone and
    the states stopped and stopping are started; for [disabled] the states
    stopping and stopped are left alone and the states starting and running
    are stopped; every other state is left unchanged. *)

Definition transition (target : lifecycle) (state : string) : option string :=
  let s := lower_string state in
  match target with
  | absent => None
  | disabled =>
      if bool_decide (s ∈ ["stopping"; "stopped"]) then None
      else if bool_decide (s ∈ ["starting"; "running"])
           then Some "stopKubernetesCluster"
      else None
  | _ =>
      if bool_decide (s ∈ ["starting"; "running"]) then None
      else if bool_decide (s ∈ ["stopped"; "stopping"])
           then Some "startKubernetesCluster"
      else None
  end.

(** ** Catalog entries that do not match

    An entry of a catalog that the loop of a resolver passes over: it has a
    name and an identifier, the wanted reference in lower case is not its
    name in lower case, and it is not its identifier. *)


(** An entry of a catalog that the loop of a resolver stops at: it has a
    name and an identifier, and the wanted reference in lower case is its
    name in lower case or is its identifier. *)


(** A value that has no ['state'] key: [None], an empty value, or a
    dictionary without the key. *)
Definition stateless (k8s : value) : Prop :=
  truthy k8s = false ∨ ∃ d, k8s = VDict d ∧ d !! "state" = None.

(** ** A remote in agreement with the task

    What a fresh invocation reads from the remote state [w] already is what
    the task asks for: under [absent], the lookup finds no record;
    otherwise it finds a record with an identifier and a state string, the
    version and the offering resolve, none of the two groups of
    [_update_k8s] sees a difference, and the state table names no command
    for the state of the record. *)


(** ** Relations between the states before and after a step *)

(** [steps R m]: whatever the outcome, [m] takes a state to one related to
    it by [R]. *)
Definition steps {World} (R : relation (acs World)) {A} (m : M World A) : Prop :=
  ∀ st, R st (m st).2.

(** The trace only grows, and only by calls of the commands [cmds]. *)
Definition extends {World} (cmds : list string) : relation (acs World) :=
  λ st st', ∃ l, calls st' = calls st ++ l ∧ Forall (λ c, c.1 ∈ cmds) l.

(** The [changed] flag is left as it was. *)
Definition same_changed {World} : relation (acs World) :=
  λ st st', changed st' = changed st.

Definition mutating_calls (l : list (string * gmap string value))
    : list (string * gmap string value) :=
  filter (λ c, mutating c = true) l.

(** The commands that only read. *)
Definition reading_commands : list string :=
  ["listKubernetesClusters"; "listKubernetesSupportedVersions";
   "listServiceOfferings"; "getKubernetesClusterConfig"].

(** The memo fields of the resolvers and the result are left as they
    were. *)
Definition keeps_memo {World} : relation (acs World) :=
  λ st st', self_version st' = self_version st
            ∧ self_service_offering st' = self_service_offering st
            ∧ self_result st' = self_result st.

(** Once [changed] is true it stays true. *)
Definition flag_stays {World} : relation (acs World) :=
  λ st st', changed st = Some (VBool true) → changed st' = Some (VBool true).

(** A step is honest about its mutating calls: it has set [changed], or it
    has made none; and it does not take [changed] back. *)
Definition honest {World} : relation (acs World) :=
  λ st st',
    (changed st' = Some (VBool true)
     ∨ mutating_calls (calls st') = mutating_calls (calls st))
    ∧ flag_stays st st'.

(** ** The mutating calls of an invocation

    The sequences of mutating commands that an invocation can issue, by
    lifecycle target: at most one of create, upgrade, scale or upgrade then
    scale, followed by at most one start (or one stop under [disabled]);
    under [absent], at most one delete. *)

Definition seqs (A B : list (list string)) : list (list string) :=
  flat_map (λ a, map (λ b, a ++ b) B) A.

Definition presence_sequences : list (list string) :=
  [[]; ["createKubernetesCluster"]; ["upgradeKubernetesCluster"];
   ["scaleKubernetesCluster"];
   ["upgradeKubernetesCluster"; "scaleKubernetesCluster"]].

Definition mutating_sequences (target : lifecycle) : list (list string) :=
  match target with
  | absent => [[]; ["deleteKubernetesCluster"]]
  | disabled => seqs presence_sequences [[]; ["stopKubernetesCluster"]]
  | _ => seqs presence_sequences [[]; ["startKubernetesCluster"]]
  end.

(** [inb x A]: the sequence [x] is one of [A]. *)
Definition inb (x : list string) (A : list (list string)) : bool :=
  bool_decide (x ∈ A).

(** The trace grows by calls whose mutating commands, in order, are one of
    the sequences [opts]. *)
Definition adds {World} (opts : list (list string)) : relation (acs World) :=
  λ st st', ∃ l, calls st' = calls st ++ l
                 ∧ inb (mutating_calls l).*1 opts = true.

(** ** A catalog is listed once

    [listed_once command memo st]: the catalog command has been called at
    most once, and if it has, the memo field of its resolver is filled. *)

Definition listed_once {World} (command : string) (memo : acs World → value)
    (st : acs World) : Prop :=
  (count_calls command (calls st) ≤ 1)%nat
  ∧ (count_calls command (calls st) = 1%nat → truthy (memo st) = true).

(** A step that neither calls the catalog command nor writes the memo
    field. *)
Definition keeps_listing {World} (command : string) (memo : acs World → value)
    : relation (acs World) :=
  λ st st', count_calls command (calls st') = count_calls command (calls st)
            ∧ memo st' = memo st.

(** A method that, from a state where the catalog is listed once, never
    takes the count above one and, when it ends well, leaves the catalog
    listed once. *)
Definition lists_once {World A} (command : string) (memo : acs World → value)
    (m : M World A) : Prop :=
  ∀ st, listed_once command memo st →
    (count_calls command (calls (m st).2) ≤ 1)%nat
    ∧ (∀ a, (m st).1 = Ok a → listed_once command memo (m st).2).

(** A step that, from a state that holds a record, ends in a state that
    holds one and has listed the clusters no more. *)
Definition holds_record {World} : relation (acs World) :=
  λ st st', truthy (self_k8s st) = true →
            truthy (self_k8s st') = true
            ∧ count_calls "listKubernetesClusters" (calls st')
              = count_calls "listKubernetesClusters" (calls st).

(** [hoare P m Q]: from a state in [P], a method [m] that ends well ends in
    a state in [Q]. *)
Definition hoare {World A} (P : acs World → Prop) (m : M World A)
    (Q : acs World → Prop) : Prop :=
  ∀ st, P st → ∀ a, (m st).1 = Ok a → Q (m st).2.

(** The invocation has made a mutating call. *)
Definition mutated {World} (st : acs World) : Prop :=
  mutating_calls (calls st) ≠ [].

(** [changed] is not set without a mutating call. *)
Definition earned {World} (st : acs World) : Prop :=
  changed st = Some (VBool true) → mutated st.


(** A step that reads: it adds reading calls only and leaves [changed]. *)
Definition reads {World} : relation (acs World) :=
  λ st st', extends reading_commands st st' ∧ same_changed st st'.

(** * Properties *)

(** ** Running the monad *)

Section Run.
Context {World : Type}.
Implicit Types st : acs World.

Lemma bind_ok {A B} (m : M World A) (k : A → M World B) st a st' :
  m st = (Ok a, st') → bind m k st = k a st'.
Proof. intros H. unfold bind. now rewrite H. Qed.

Lemma bind_fail {A B} (m : M World A) (k : A → M World B) st msg st' :
  m st = (FailJson msg, st') → bind m k st = (FailJson msg, st').
Proof. intros H. unfold bind. now rewrite H. Qed.

Lemma bind_raise {A B} (m : M World A) (k : A → M World B) st e st' :
  m st = (Raise e, st') → bind m k st = (Raise e, st').
Proof. intros H. unfold bind. now rewrite H. Qed.

Section Steps.
Context (R : relation (acs World)) `{!Reflexive R, !Transitive R}.

Lemma steps_ret {A} (a : A) : steps R (ret a).
Proof. intros st. reflexivity. Qed.

Lemma steps_lift {A} (o : outcome A) : steps R (lift o).
Proof. intros st. reflexivity. Qed.

Lemma steps_fail_json {A} msg : steps R (@fail_json World A msg).
Proof. intros st. reflexivity. Qed.

Lemma steps_gets {A} (f : acs World → A) : steps R (gets f).
Proof. intros st. reflexivity. Qed.

Lemma steps_modify (f : acs World → acs World) :
  (∀ st, R st (f st)) → steps R (modify f).
Proof. intros H st. apply H. Qed.

Lemma steps_bind {A B} (m : M World A) (k : A → M World B) :
  steps R m → (∀ a, steps R (k a)) → steps R (bind m k).
Proof.
  intros Hm Hk st. specialize (Hm st). unfold bind.
  destruct (m st) as [[a|msg|e] st1]; cbn in *; [|done..].
  etransitivity; [exact Hm|apply Hk].
Qed.

End Steps.

Lemma steps_and (R1 R2 : relation (acs World)) {A} (m : M World A) :
  steps R1 m → steps R2 m → steps (λ st st', R1 st st' ∧ R2 st st') m.
Proof. intros H1 H2 st. split; [apply H1|apply H2]. Qed.

#[global] Instance extends_refl cmds : Reflexive (@extends World cmds).
Proof. intros st. exists []. now rewrite app_nil_r. Qed.

#[global] Instance extends_trans cmds : Transitive (@extends World cmds).
Proof.
  intros s1 s2 s3 (l1 & E1 & F1) (l2 & E2 & F2).
  exists (l1 ++ l2). rewrite E2, E1, app_assoc. split; [done|].
  now apply Forall_app.
Qed.

Lemma extends_mono cmds cmds' (st st' : acs World) :
  cmds ⊆ cmds' → extends cmds st st' → extends cmds' st st'.
Proof.
  intros Hsub (l & E & F). exists l. split; [done|].
  eapply Forall_impl; [exact F|]. intros c Hc. now apply Hsub.
Qed.

#[global] Instance same_changed_refl : Reflexive (@same_changed World).
Proof. now intros st. Qed.

#[global] Instance same_changed_trans : Transitive (@same_changed World).
Proof. unfold same_changed. intros s1 s2 s3 E1 E2. congruence. Qed.


Lemma extends_mutating cmds st st' :
  extends cmds st st' → (∀ c, c ∈ cmds → c ∉ mutating_commands) →
  mutating_calls (calls st') = mutating_calls (calls st).
Proof.
  intros (l & -> & F) Hnot. unfold mutating_calls.
  rewrite filter_app.
  replace (filter _ l) with (@nil (string * gmap string value));
    [now rewrite app_nil_r|].
  symmetry. induction F as [|c l Hc F IH]; [done|].
  rewrite filter_cons. destruct (decide _) as [Hd|Hd]; [|exact IH].
  unfold mutating in Hd. apply bool_decide_eq_true in Hd.
  now apply Hnot in Hc.
Qed.

End Run.

Lemma reading_not_mutating c : c ∈ reading_commands → c ∉ mutating_commands.
Proof.
  unfold reading_commands, mutating_commands. intros Hc Hm.
  repeat (apply elem_of_cons in Hc as [->|Hc]; [set_solver|]). set_solver.
Qed.

#[global] Instance reads_refl {World} : Reflexive (@reads World).
Proof. intros st. split; reflexivity. Qed.

#[global] Instance reads_trans {World} : Transitive (@reads World).
Proof. intros s1 s2 s3 [E1 C1] [E2 C2]. split; etransitivity; eauto. Qed.

Lemma reads_mutating {World} (st st' : acs World) :
  reads st st' → mutating_calls (calls st') = mutating_calls (calls st).
Proof. intros [E _]. eapply extends_mutating; [exact E|apply reading_not_mutating]. Qed.

Lemma reads_changed {World} (st st' : acs World) :
  reads st st' → changed st' = changed st.
Proof. now intros [_ C]. Qed.

(** ** What each method can do to the trace and to the flag *)

Section Frames.
Context {World : Type}.
Variable api : string → gmap string value → World → outcome value * World.
Variable poll : value → string → World → outcome value * World.
Variable resolve : params → string → string → World → outcome value.
Variable get_result : value → gmap string value → gmap string value.
Variable p : params.

Lemma reads_query_api command args (st : acs World) :
  command ∈ reading_commands → reads st (query_api api command args st).2.
Proof.
  intros Hin. split; [|reflexivity].
  exists [(command, args)]. split; [done|]. now apply Forall_singleton.
Qed.

Lemma steps_reads_query_api command args :
  command ∈ reading_commands → steps reads (query_api api command args).
Proof. intros Hin st. now apply reads_query_api. Qed.

Lemma steps_reads_poll_job job key : steps reads (poll_job poll job key).
Proof. intros st. split; [exists []; cbn; now rewrite app_nil_r|reflexivity]. Qed.

Lemma reads_with_k8s v (st : acs World) : reads st (with_k8s v st).
Proof. split; [exists []; cbn; now rewrite app_nil_r|reflexivity]. Qed.

Lemma reads_with_version v (st : acs World) : reads st (with_version v st).
Proof. split; [exists []; cbn; now rewrite app_nil_r|reflexivity]. Qed.

Lemma reads_with_service_offering v (st : acs World) :
  reads st (with_service_offering v st).
Proof. split; [exists []; cbn; now rewrite app_nil_r|reflexivity]. Qed.

Lemma reads_with_result key v (st : acs World) :
  key ≠ "changed" → reads st (with_result key v st).
Proof.
  intros Hne. split; [exists []; cbn; now rewrite app_nil_r|].
  unfold same_changed, changed. cbn. now rewrite lookup_insert_ne.
Qed.

(** Breaks a reading method down along its syntax. *)
Ltac reads_step :=
  first
    [ apply steps_ret; tc_solve | apply steps_lift; tc_solve
    | apply steps_fail_json; tc_solve | apply steps_gets; tc_solve
    | apply steps_reads_poll_job
    | apply steps_modify; intros ?;
      first [ apply reads_with_k8s | apply reads_with_version
            | apply reads_with_service_offering
            | apply reads_with_result; discriminate ]
    | apply steps_reads_query_api; apply (bool_decide_unpack _); vm_compute; exact I
    | apply steps_bind; [tc_solve| |intros ?]
    | match goal with
      | |- steps _ (if ?b then _ else _) => destruct b
      | |- steps _ (match ?x with _ => _ end) => destruct x
      end ].

Lemma reads_get_version key : steps reads (get_version api p key).
Proof using api p. unfold get_version, _get_by_key. repeat reads_step. Qed.

Lemma reads_get_service_offering key : steps reads (get_service_offering api p key).
Proof using api p. unfold get_service_offering, _get_by_key. repeat reads_step. Qed.

Lemma reads_get_k8s : steps reads (get_k8s api p).
Proof using api p. unfold get_k8s, get_k8s_by_id. repeat reads_step. Qed.

Lemma reads_k8s_config : steps reads (_k8s_config api p).
Proof using api p.
  unfold _k8s_config, fetch_config.
  apply steps_bind; [tc_solve|apply reads_get_k8s|].
  intros. repeat reads_step.
Qed.

Lemma reads_final_check k8s : steps (@reads World) (final_check p k8s).
Proof using p. unfold final_check. repeat reads_step. Qed.

Lemma reads_resolver kind key :
  steps reads (λ st : acs World, (resolve p kind key (remote st), st)).
Proof. intros st. reflexivity. Qed.

Lemma reads_fail_on_missing_params l :
  steps (@reads World) (fail_on_missing_params p l).
Proof using p. unfold fail_on_missing_params. repeat reads_step. Qed.

Lemma extends_same_calls cmds (st st' : acs World) :
  calls st' = calls st → extends cmds st st'.
Proof. intros H. exists []. now rewrite app_nil_r. Qed.

Lemma steps_extends_query_api cmds command args :
  command ∈ cmds → steps (extends cmds) (query_api api command args).
Proof.
  intros Hin st. exists [(command, args)]. split; [done|].
  now apply Forall_singleton.
Qed.

Lemma steps_extends_poll_job cmds job key :
  steps (extends cmds) (poll_job poll job key).
Proof. intros st. now apply extends_same_calls. Qed.

Lemma steps_extends_resolver cmds kind key :
  steps (extends cmds) (λ st : acs World, (resolve p kind key (remote st), st)).
Proof. intros st. reflexivity. Qed.

(** Breaks a method down along its syntax to bound the calls it adds. *)
Ltac extends_step :=
  first
    [ apply steps_ret; tc_solve | apply steps_lift; tc_solve
    | apply steps_fail_json; tc_solve | apply steps_gets; tc_solve
    | apply steps_extends_poll_job | apply steps_extends_resolver
    | apply steps_modify; intros ?; apply extends_same_calls; reflexivity
    | apply steps_extends_query_api; apply (bool_decide_unpack _); vm_compute; exact I
    | apply steps_bind; [tc_solve| |intros ?]
    | match goal with
      | |- steps _ (if ?b then _ else _) => destruct b
      | |- steps _ (match ?x with _ => _ end) => destruct x
      end ].

Lemma extends_get_k8s : steps (extends ["listKubernetesClusters"]) (get_k8s api p).
Proof using api p. unfold get_k8s, get_k8s_by_id. repeat extends_step. Qed.

Lemma extends_call_polled command args :
  steps (extends [command]) (call_polled api poll p command args).
Proof using api poll p.
  unfold call_polled. apply steps_bind; [tc_solve| |intros ?].
  - apply steps_extends_query_api. now apply list_elem_of_singleton.
  - repeat extends_step.
Qed.

Lemma extends_start_or_stop :
  steps (extends ["listKubernetesClusters"; "startKubernetesCluster";
                  "stopKubernetesCluster"]) (start_or_stop api poll p).
Proof using api poll p.
  unfold start_or_stop, start_k8s, stop_k8s, call_polled, get_k8s, get_k8s_by_id,
    set_changed.
  destruct (p_state p); repeat extends_step.
Qed.



End Frames.

(** ** The methods, step by step *)

Section Claims.
Context {World : Type}.
Variable api : string → gmap string value → World → outcome value * World.
Variable poll : value → string → World → outcome value * World.
Variable resolve : params → string → string → World → outcome value.
Variable get_result : value → gmap string value → gmap string value.
Variable p : params.
Implicit Types st : acs World.

Lemma bind_lift {A B} (o : outcome A) (k : A → M World B) st a :
  o = Ok a → bind (lift o) k st = k a st.
Proof. now intros ->. Qed.

Lemma bind_modify {B} f (k : unit → M World B) st :
  bind (modify f) k st = k tt (f st).
Proof. reflexivity. Qed.

Lemma bind_gets {A B} (f : acs World → A) (k : A → M World B) st :
  bind (gets f) k st = k (f st) st.
Proof. reflexivity. Qed.

Lemma bind_ret {A B} (a : A) (k : A → M World B) st : bind (ret a) k st = k a st.
Proof. reflexivity. Qed.

Lemma bind_assoc {A B C} (m : M World A) (f : A → M World B) (g : B → M World C) st :
  bind (bind m f) g st = bind m (λ x, bind (f x) g) st.
Proof. unfold bind. now destruct (m st) as [[a|msg|e] st1]. Qed.

Lemma truthy_field k8s key v : field k8s key = Some v → truthy k8s = true.
Proof.
  destruct k8s as [| | | | |d]; try discriminate. cbn. intros H.
  apply negb_true_iff, bool_decide_eq_false. intros ->.
  now rewrite lookup_empty in H.
Qed.

Lemma subscript_field k8s key v : field k8s key = Some v → subscript k8s key = Ok v.
Proof. destruct k8s; try discriminate. cbn. now intros ->. Qed.

Lemma state_lower_field k8s s :
  field k8s "state" = Some (VStr s) → state_lower k8s = Ok (VStr (lower_string s)).
Proof. intros H. unfold state_lower. now rewrite (subscript_field _ _ _ H). Qed.

Lemma contains_field k8s key v : field k8s key = Some v → contains key k8s = Ok true.
Proof.
  destruct k8s as [| | | | |d]; try discriminate. cbn. intros H.
  now rewrite bool_decide_eq_true_2 by (now exists v).
Qed.

Lemma changed_set st v : changed (with_result "changed" v st) = Some v.
Proof. unfold changed. cbn. apply lookup_insert_eq. Qed.

Lemma among_str x l : among (VStr x) l = bool_decide (x ∈ l).
Proof.
  unfold among. apply bool_decide_ext. rewrite list_elem_of_fmap. split.
  - intros (y & [= ->] & Hy). exact Hy.
  - intros Hx. now exists x.
Qed.

Lemma params_get_name : params_get p "name" = VStr (p_name p).
Proof. reflexivity. Qed.

Lemma params_get_poll_async : truthy (params_get p "poll_async") = p_poll_async p.
Proof. reflexivity. Qed.

Lemma query_api_run command args st r w :
  api command args (remote st) = (r, w) →
  query_api api command args st = (r, with_call (command, args) w st).
Proof. intros H. unfold query_api. now rewrite H. Qed.

Lemma get_k8s_cached st :
  truthy (self_k8s st) = true → get_k8s api p st = (Ok (self_k8s st), st).
Proof. intros H. unfold get_k8s. now rewrite bind_gets, H. Qed.

Lemma call_polled_calls command args st :
  calls (call_polled api poll p command args st).2 = calls st ++ [(command, args)].
Proof.
  unfold call_polled, bind, query_api, poll_job. cbn.
  destruct (api command args (remote st)) as [[k|msg|e] w]; cbn; [|done..].
  now destruct (truthy (params_get p "poll_async")).
Qed.

Lemma call_polled_changed command args st :
  changed (call_polled api poll p command args st).2 = changed st.
Proof.
  unfold call_polled, bind, query_api, poll_job. cbn.
  destruct (api command args (remote st)) as [[k|msg|e] w]; cbn; [|done..].
  now destruct (truthy (params_get p "poll_async")).
Qed.

(** ** Start and stop *)

(** The start/stop step on a cached record with a state string. *)
Lemma start_or_stop_run st s :
  p_state p ≠ absent →
  field (self_k8s st) "state" = Some (VStr s) →
  start_or_stop api poll p st
  = match transition (p_state p) s with
    | None => (Ok (self_k8s st), st)
    | Some command =>
        if check_mode p
        then (Ok (self_k8s st), with_result "changed" (VBool true) st)
        else bind (lift (subscript (self_k8s st) "id"))
               (λ id, call_polled api poll p command {[ "id" := id ]})
               (with_result "changed" (VBool true) st)
    end.
Proof.
  intros Hl Hs.
  assert (Ht : truthy (self_k8s st) = true) by (eapply truthy_field, Hs).
  pose proof (state_lower_field _ _ Hs) as Hsl.
  unfold start_or_stop, transition.
  destruct (p_state p); try done.
  - unfold start_k8s. rewrite (bind_ok _ _ _ _ _ (get_k8s_cached st Ht)), Ht.
    rewrite (bind_lift _ _ _ _ Hsl), !among_str.
    destruct (bool_decide (_ ∈ ["starting"; "running"])); [done|].
    destruct (bool_decide (_ ∈ ["stopped"; "stopping"])); [|done].
    unfold set_changed. rewrite bind_modify. now destruct (check_mode p).
  - unfold start_k8s. rewrite (bind_ok _ _ _ _ _ (get_k8s_cached st Ht)), Ht.
    rewrite (bind_lift _ _ _ _ Hsl), !among_str.
    destruct (bool_decide (_ ∈ ["starting"; "running"])); [done|].
    destruct (bool_decide (_ ∈ ["stopped"; "stopping"])); [|done].
    unfold set_changed. rewrite bind_modify. now destruct (check_mode p).
  - unfold stop_k8s. rewrite (bind_ok _ _ _ _ _ (get_k8s_cached st Ht)), Ht.
    rewrite (bind_lift _ _ _ _ Hsl), !among_str.
    destruct (bool_decide (_ ∈ ["stopping"; "stopped"])); [done|].
    destruct (bool_decide (_ ∈ ["starting"; "running"])); [|done].
    unfold set_changed. rewrite bind_modify. now destruct (check_mode p).
Qed.

(** C3, as amended.  For a cluster record with a state string and an
    identifier, a lifecycle target other than [absent] and check mode off,
    the start/stop step follows the state table, which reads the target and
    the state string in lower case only: when the table names a command,
    exactly one call of that command, carrying the identifier of the
    record, is added to the trace and [changed] is set; when it names none
    (the states that are already as wanted, and every unknown state), the
    step returns the record and leaves everything as it was.  The targets
    [enabled] and [present] share one row of the table. *)
Theorem start_stop_follows_table st s i :
  p_state p ≠ absent →
  check_mode p = false →
  field (self_k8s st) "state" = Some (VStr s) →
  field (self_k8s st) "id" = Some i →
  let st' := (start_or_stop api poll p st).2 in
  match transition (p_state p) s with
  | Some command =>
      calls st' = calls st ++ [(command, {[ "id" := i ]})]
      ∧ changed st' = Some (VBool true)
  | None => start_or_stop api poll p st = (Ok (self_k8s st), st)
  end.
Proof.
  intros Hl Hc Hs Hi. cbv zeta. rewrite (start_or_stop_run st s Hl Hs), Hc.
  destruct (transition (p_state p) s) as [command|]; [|done].
  rewrite (bind_lift _ _ _ _ (subscript_field _ _ _ Hi)).
  rewrite call_polled_calls, call_polled_changed.
  split; [done|apply changed_set].
Qed.

(** ** The final check *)

Lemma final_check_error k8s s st :
  field k8s "state" = Some (VStr s) → lower_string s = "error" →
  final_check p k8s st
  = (FailJson ("Kubernetes cluster named '" +:+ p_name p +:+ "' in error state."), st).
Proof.
  intros Hs Hl. unfold final_check.
  rewrite (truthy_field _ _ _ Hs), (bind_lift _ _ _ _ (contains_field _ _ _ Hs)).
  rewrite (bind_lift _ _ _ _ (state_lower_field _ _ Hs)), Hl.
  rewrite bool_decide_eq_true_2 by done. now rewrite params_get_name.
Qed.

Lemma final_check_stateless k8s st :
  stateless k8s → final_check p k8s st = (Ok tt, st).
Proof.
  unfold final_check. intros [Hf|(d & -> & Hd)]; [now rewrite Hf|].
  destruct (truthy (VDict d)); [|done].
  unfold bind. cbn. rewrite bool_decide_eq_false_2; [done|].
  rewrite Hd. now intros [? ?].
Qed.

Lemma final_check_fails k8s st msg st' :
  final_check p k8s st = (FailJson msg, st') →
  ∃ s, field k8s "state" = Some (VStr s) ∧ lower_string s = "error".
Proof.
  unfold final_check. destruct (truthy k8s); [|discriminate].
  destruct k8s as [| | | | l |d]; cbn; try discriminate.
  - unfold bind. cbn. now destruct (bool_decide _).
  - unfold bind. cbn. now destruct (bool_decide _).
  - unfold bind. cbn. destruct (bool_decide _); cbn; [|discriminate].
    unfold state_lower. cbn. destruct (d !! "state") as [v|] eqn:Hv; cbn; [|discriminate].
    destruct v; cbn; try discriminate.
    destruct (bool_decide _) eqn:Hb; [|discriminate].
    apply bool_decide_eq_true in Hb. intros _. eexists. split; [done|congruence].
Qed.

(** C4.  When the reconciliation steps have completed and the record they
    return has a state string that reads "error" in lower case, the
    invocation fails with the message that names the cluster, whatever the
    steps did to the trace and to [changed]. *)
Theorem error_state_is_fatal st k8s st' s :
  reconcile api poll resolve p st = (Ok k8s, st') →
  field k8s "state" = Some (VStr s) →
  lower_string s = "error" →
  main api poll resolve get_result p st
  = (FailJson ("Kubernetes cluster named '" +:+ p_name p +:+ "' in error state."), st').
Proof.
  intros Hr Hs Hl. unfold main. rewrite (bind_ok _ _ _ _ _ Hr).
  now rewrite (bind_fail _ _ _ _ _ (final_check_error _ _ st' Hs Hl)).
Qed.

(** C10.  The final check passes every value without a ['state'] key
    untouched, it fails only on a record whose state string reads "error"
    in lower case, and an invocation whose steps return a value without a
    ['state'] key ends with the report of that value. *)
Theorem final_check_needs_state :
  (∀ k8s st, stateless k8s → final_check p k8s st = (Ok tt, st))
  ∧ (∀ k8s st msg st', final_check p k8s st = (FailJson msg, st') →
       ∃ s, field k8s "state" = Some (VStr s) ∧ lower_string s = "error")
  ∧ (∀ st k8s st', reconcile api poll resolve p st = (Ok k8s, st') →
       stateless k8s →
       main api poll resolve get_result p st
       = (Ok (get_result k8s (self_result st')), st')).
Proof.
  split; [exact final_check_stateless|]. split; [exact final_check_fails|].
  intros st k8s st' Hr Hk. unfold main. rewrite (bind_ok _ _ _ _ _ Hr).
  now rewrite (bind_ok _ _ _ _ _ (final_check_stateless _ st' Hk)).
Qed.

(** ** The resolvers *)







(** ** The cluster state reader *)

Lemma params_get_id : params_get p "id" = of_str (p_id p).
Proof. reflexivity. Qed.


(** ** Removal *)

Lemma final_check_state k8s st : (final_check p k8s st).2 = st.
Proof.
  unfold final_check. destruct (truthy k8s); [|done].
  unfold bind. cbn. destruct (contains "state" k8s) as [[]| |]; cbn; try done.
  destruct (state_lower k8s); cbn; try done. now destruct (bool_decide _).
Qed.

Lemma main_state st :
  (main api poll resolve get_result p st).2 = (reconcile api poll resolve p st).2.
Proof.
  unfold main, bind.
  destruct (reconcile api poll resolve p st) as [[k8s|msg|e] st1]; cbn; [|done..].
  pose proof (final_check_state k8s st1) as H.
  destruct (final_check p k8s st1) as [[[]|msg|e] st2]; cbn in *; congruence.
Qed.

Lemma call_polled_outcome command args st :
  (p_poll_async p = false →
   (call_polled api poll p command args st).1 = (api command args (remote st)).1)
  ∧ (p_poll_async p = true → ∀ job w, api command args (remote st) = (Ok job, w) →
     (call_polled api poll p command args st).1 = (poll job "kubernetescluster" w).1).
Proof.
  unfold call_polled. split.
  - intros Hp. unfold bind, query_api. cbn.
    rewrite params_get_poll_async, Hp. now destruct (api _ _ _).1.
  - intros Hp job w Ha. rewrite (bind_ok _ _ _ _ _ (query_api_run _ _ _ _ _ Ha)).
    now rewrite params_get_poll_async, Hp.
Qed.

(** C8, as amended.  With the lifecycle [absent], in a fresh invocation
    whose lookup ends with the value [k8s]: when [k8s] is empty, the
    invocation ends well, makes no mutating call and reports [changed]
    false; when [k8s] is a record with an identifier and check mode is off,
    the lookups are followed by exactly one call, the delete call on that
    identifier, nothing else is called, [changed] is set, and the outcome
    of the step is that of the call, polled when [poll_async] is set. *)
Theorem absent_deletes_or_does_nothing w k8s st1 :
  p_state p = absent →
  get_k8s api p (init w) = (Ok k8s, st1) →
  let r := main api poll resolve get_result p (init w) in
  let delete i := ("deleteKubernetesCluster", ({[ "id" := i ]} : gmap string value)) in
  (truthy k8s = false →
   r.1 = Ok (get_result k8s (self_result st1))
   ∧ mutating_calls (calls r.2) = []
   ∧ changed r.2 = Some (VBool false))
  ∧ (truthy k8s = true → check_mode p = false → ∀ i, field k8s "id" = Some i →
     calls r.2 = calls st1 ++ [delete i]
     ∧ Forall (λ c, c.1 = "listKubernetesClusters") (calls st1)
     ∧ mutating_calls (calls r.2) = [delete i]
     ∧ changed r.2 = Some (VBool true)
     ∧ reconcile api poll resolve p (init w)
       = call_polled api poll p "deleteKubernetesCluster" {[ "id" := i ]}
           (with_result "changed" (VBool true) st1)
     ∧ (p_poll_async p = false →
        (reconcile api poll resolve p (init w)).1
        = (api "deleteKubernetesCluster" {[ "id" := i ]} (remote st1)).1)
     ∧ (p_poll_async p = true → ∀ job w',
        api "deleteKubernetesCluster" {[ "id" := i ]} (remote st1) = (Ok job, w') →
        (reconcile api poll resolve p (init w)).1 = (poll job "kubernetescluster" w').1)).
Proof.
  intros Hl Hg r delete.
  assert (Hreads : reads (init w) st1).
  { pose proof (reads_get_k8s api p (init w)) as H. now rewrite Hg in H. }
  assert (Hlist : Forall (λ c, c.1 = "listKubernetesClusters") (calls st1)).
  { pose proof (extends_get_k8s api p (init w)) as (l & E & F).
    rewrite Hg in E. cbn in E. rewrite E.
    eapply Forall_impl; [exact F|]. intros c Hc.
    now apply list_elem_of_singleton in Hc. }
  assert (Hmut : mutating_calls (calls st1) = []).
  { now rewrite (reads_mutating _ _ Hreads). }
  assert (Hrec : reconcile api poll resolve p (init w) = absent_k8s api poll p (init w)).
  { unfold reconcile. now rewrite Hl. }
  split.
  - intros Hf.
    assert (Hr : reconcile api poll resolve p (init w) = (Ok k8s, st1)).
    { rewrite Hrec. unfold absent_k8s. now rewrite (bind_ok _ _ _ _ _ Hg), Hf. }
    assert (Hm : r = (Ok (get_result k8s (self_result st1)), st1)).
    { subst r. unfold main. rewrite (bind_ok _ _ _ _ _ Hr).
      rewrite (bind_ok _ _ _ tt st1); [done|].
      apply final_check_stateless. now left. }
    rewrite Hm. cbn. split; [done|]. split; [done|].
    now rewrite (reads_changed _ _ Hreads).
  - intros Ht Hc i Hi.
    assert (Hr : reconcile api poll resolve p (init w)
                 = call_polled api poll p "deleteKubernetesCluster" {[ "id" := i ]}
                     (with_result "changed" (VBool true) st1)).
    { rewrite Hrec. unfold absent_k8s. rewrite (bind_ok _ _ _ _ _ Hg), Ht.
      unfold set_changed. rewrite bind_modify, Hc. cbn [negb].
      now rewrite (bind_lift _ _ _ _ (subscript_field _ _ _ Hi)). }
    assert (Hcalls : calls r.2 = calls st1 ++ [delete i]).
    { subst r. now rewrite main_state, Hr, call_polled_calls. }
    split; [exact Hcalls|]. split; [exact Hlist|]. split.
    { rewrite Hcalls. unfold mutating_calls. rewrite filter_app.
      fold (mutating_calls (calls st1)). now rewrite Hmut. }
    split.
    { subst r. rewrite main_state, Hr, call_polled_changed. apply changed_set. }
    split; [exact Hr|]. rewrite Hr.
    apply (call_polled_outcome "deleteKubernetesCluster" {[ "id" := i ]}
             (with_result "changed" (VBool true) st1)).
Qed.

(** ** Creation *)


(** What is left of [main] once the lookup of [present_k8s] has answered:
    the create or update step, the config fetch, start or stop, the final
    check and the report. *)
Lemma main_after_lookup st k8s st1 :
  p_state p ≠ absent →
  get_k8s api p st = (Ok k8s, st1) →
  main api poll resolve get_result p st
  = bind (if truthy k8s then _update_k8s api poll p else _create_k8s api poll resolve p)
      (λ k, bind (if truthy k then bind (modify (with_k8s k)) (λ _, _k8s_config api p)
                  else ret k)
              (λ _, bind (start_or_stop api poll p)
                 (λ k8s, bind (final_check p k8s)
                           (λ _, bind (gets self_result)
                                   (λ result, ret (get_result k8s result)))))) st1.
Proof.
  intros Hl Hg. unfold main, reconcile.
  assert (Hr : (match p_state p with
                | absent => absent_k8s api poll p
                | _ => bind (present_k8s api poll resolve p) (λ _, start_or_stop api poll p)
                end)
               = bind (present_k8s api poll resolve p) (λ _, start_or_stop api poll p)).
  { now destruct (p_state p). }
  rewrite Hr. unfold present_k8s. rewrite !bind_assoc.
  rewrite (bind_ok _ _ _ _ _ Hg). now rewrite ?bind_assoc.
Qed.






(** ** Memoised resolution *)

Lemma bind_inv {A B} (m : M World A) (k : A → M World B) st b st' :
  bind m k st = (Ok b, st') →
  ∃ a st1, m st = (Ok a, st1) ∧ k a st1 = (Ok b, st').
Proof.
  unfold bind. destruct (m st) as [[a|msg|e] st1]; cbn; try discriminate.
  intros H. now exists a, st1.
Qed.

Lemma lift_inv {A} (o : outcome A) st a st' :
  lift o st = (Ok a, st') → o = Ok a ∧ st' = st.
Proof. unfold lift. now intros [= -> ->]. Qed.

Lemma subscript_truthy v key x : subscript v key = Ok x → truthy v = true.
Proof.
  destruct v as [| | | | |d]; try discriminate. cbn.
  destruct (d !! key) eqn:E; [|discriminate]. intros _.
  apply negb_true_iff, bool_decide_eq_false. intros ->.
  now rewrite lookup_empty in E.
Qed.

Lemma get_version_cached key st :
  truthy (self_version st) = true →
  get_version api p key st = (subscript (self_version st) key, st).
Proof. intros H. unfold get_version. now rewrite bind_gets, H. Qed.

Lemma get_service_offering_cached key st :
  truthy (self_service_offering st) = true →
  get_service_offering api p key st = (subscript (self_service_offering st) key, st).
Proof. intros H. unfold get_service_offering. now rewrite bind_gets, H. Qed.

(** Once resolved, never resolved again: a successful resolution leaves the
    entry in the memo field, and touches neither the other memo fields nor
    the [changed] flag. *)
Lemma get_version_post key st vid st' :
  get_version api p key st = (Ok vid, st') →
  truthy (self_version st') = true
  ∧ subscript (self_version st') key = Ok vid
  ∧ self_k8s st' = self_k8s st
  ∧ self_service_offering st' = self_service_offering st.
Proof.
  unfold get_version. rewrite bind_gets.
  destruct (truthy (self_version st)) eqn:Hc.
  - unfold _get_by_key. intros H. apply lift_inv in H as [H ->]. now rewrite Hc.
  - intros H. apply bind_inv in H as (versions & s1 & Hq & H).
    assert (Hs1 : self_k8s s1 = self_k8s st
                  ∧ self_service_offering s1 = self_service_offering st).
    { unfold query_api in Hq. now injection Hq as _ <-. }
    destruct (negb (truthy versions)); [discriminate|].
    apply bind_inv in H as (l & s2 & Hl & H). apply lift_inv in Hl as [_ ->].
    apply bind_inv in H as (entries & s2 & Hl & H). apply lift_inv in Hl as [_ ->].
    apply bind_inv in H as (found & s2 & Hl & H). apply lift_inv in Hl as [_ ->].
    destruct found as [v|]; [|discriminate].
    apply bind_inv in H as (name & s2 & Hl & H). apply lift_inv in Hl as [Hn ->].
    rewrite !bind_modify in H. unfold _get_by_key in H.
    apply lift_inv in H as [H ->]. cbn.
    split; [exact (subscript_truthy _ _ _ Hn)|]. now split.
Qed.

Lemma get_service_offering_post key st oid st' :
  get_service_offering api p key st = (Ok oid, st') →
  truthy (self_service_offering st') = true
  ∧ subscript (self_service_offering st') key = Ok oid
  ∧ self_k8s st' = self_k8s st
  ∧ self_version st' = self_version st.
Proof.
  unfold get_service_offering. rewrite bind_gets.
  destruct (truthy (self_service_offering st)) eqn:Hc.
  - unfold _get_by_key. intros H. apply lift_inv in H as [H ->]. now rewrite Hc.
  - intros H. apply bind_inv in H as (offerings & s1 & Hq & H).
    assert (Hs1 : self_k8s s1 = self_k8s st ∧ self_version s1 = self_version st).
    { unfold query_api in Hq. now injection Hq as _ <-. }
    destruct (negb (truthy offerings)); [discriminate|].
    apply bind_inv in H as (l & s2 & Hl & H). apply lift_inv in Hl as [_ ->].
    apply bind_inv in H as (entries & s2 & Hl & H). apply lift_inv in Hl as [_ ->].
    apply bind_inv in H as (found & s2 & Hl & H). apply lift_inv in Hl as [_ ->].
    destruct found as [o|]; [|discriminate].
    apply bind_inv in H as (name & s2 & Hl & H). apply lift_inv in Hl as [Hn ->].
    rewrite !bind_modify in H. unfold _get_by_key in H.
    apply lift_inv in H as [H ->]. cbn.
    split; [exact (subscript_truthy _ _ _ Hn)|]. now split.
Qed.

Lemma call_polled_fields command args st :
  let st' := (call_polled api poll p command args st).2 in
  self_k8s st' = self_k8s st
  ∧ self_version st' = self_version st
  ∧ self_service_offering st' = self_service_offering st
  ∧ self_result st' = self_result st.
Proof.
  unfold call_polled, bind, query_api, poll_job. cbn.
  destruct (api command args (remote st)) as [[k|msg|e] w]; cbn; [|done..].
  now destruct (truthy (params_get p "poll_async")).
Qed.

(** ** Update *)

Lemma params_get_size : params_get p "size" = of_int (p_size p).
Proof. reflexivity. Qed.

Lemma version_group_run i vid oid k8s st :
  truthy (self_version st) = true →
  subscript (self_version st) "id" = Ok vid →
  version_group api poll p (update_args p i vid oid) k8s st
  = if has_changed (update_args p i vid oid) k8s ["kubernetesversionid"] then
      if check_mode p then (Ok k8s, with_result "changed" (VBool true) st)
      else call_polled api poll p "upgradeKubernetesCluster" (upgrade_args i vid)
             (with_result "changed" (VBool true) st)
    else (Ok k8s, st).
Proof.
  intros Ht Hv. unfold version_group.
  destruct (has_changed _ k8s _); [|done].
  unfold set_changed. rewrite bind_modify.
  destruct (check_mode p); [done|]. cbn [negb].
  rewrite (bind_lift _ _ _ i) by reflexivity.
  rewrite (bind_ok _ _ _ vid (with_result "changed" (VBool true) st)); [done|].
  rewrite get_version_cached by exact Ht. cbn. now rewrite Hv.
Qed.

Lemma scale_group_run i vid oid k8s st :
  truthy (self_service_offering st) = true →
  subscript (self_service_offering st) "id" = Ok oid →
  scale_group api poll p (update_args p i vid oid) k8s st
  = if has_changed (update_args p i vid oid) k8s ["serviceofferingid"; "size"] then
      if check_mode p then (Ok k8s, with_result "changed" (VBool true) st)
      else call_polled api poll p "scaleKubernetesCluster"
             (scale_args i oid (of_int (p_size p)))
             (with_result "changed" (VBool true) st)
    else (Ok k8s, st).
Proof.
  intros Ht Hv. unfold scale_group.
  destruct (has_changed _ k8s _); [|done].
  unfold set_changed. rewrite bind_modify.
  destruct (check_mode p); [done|]. cbn [negb].
  rewrite (bind_lift _ _ _ i) by reflexivity.
  rewrite (bind_ok _ _ _ oid (with_result "changed" (VBool true) st)).
  - now rewrite (bind_lift _ _ _ (of_int (p_size p))) by reflexivity.
  - rewrite get_service_offering_cached by exact Ht. cbn. now rewrite Hv.
Qed.

Lemma bind_ret_r {A} (m : M World A) st : bind m ret st = m st.
Proof. unfold bind, ret. now destruct (m st) as [[a|msg|e] s]. Qed.

(** The update step, once the record is cached and both references have
    resolved: the version group, then the scale group on the record the
    version group leaves. *)
Lemma update_run st i vid st1 oid st2 :
  field (self_k8s st) "id" = Some i →
  get_version api p "id" st = (Ok vid, st1) →
  get_service_offering api p "id" st1 = (Ok oid, st2) →
  truthy (self_version st2) = true
  ∧ subscript (self_version st2) "id" = Ok vid
  ∧ truthy (self_service_offering st2) = true
  ∧ subscript (self_service_offering st2) "id" = Ok oid
  ∧ _update_k8s api poll p st
    = bind (version_group api poll p (update_args p i vid oid) (self_k8s st))
        (λ k8s, bind (scale_group api poll p (update_args p i vid oid) k8s) ret) st2.
Proof.
  intros Hi Hv Ho.
  destruct (get_version_post _ _ _ _ Hv) as (Hv1 & Hv2 & _ & _).
  destruct (get_service_offering_post _ _ _ _ Ho) as (Ho1 & Ho2 & _ & Ho4).
  rewrite Ho4. repeat (split; [assumption|]).
  unfold _update_k8s.
  rewrite (bind_ok _ _ _ _ _ (get_k8s_cached st (truthy_field _ _ _ Hi))).
  rewrite (bind_lift _ _ _ _ (subscript_field _ _ _ Hi)).
  now rewrite (bind_ok _ _ _ _ _ Hv), (bind_ok _ _ _ _ _ Ho).
Qed.

(** C2, as amended.  With check mode off, for a cached record with an
    identifier and resolved version and offering identifiers: when the
    version identifier does not differ, no upgrade call is made, and the
    scale call is made exactly when the offering identifier or the size
    differs from the record; when the version identifier differs, the
    upgrade call is made first (after the reading calls of the
    resolution), and the scale call follows exactly when the upgrade has
    answered and the offering identifier or the size differs from the
    record the upgrade has answered with, so that a version that alone
    differed gives one upgrade call and no scale call when the record after
    the upgrade still agrees on offering and size. *)
Theorem update_groups st i vid st1 oid st2 :
  check_mode p = false →
  field (self_k8s st) "id" = Some i →
  get_version api p "id" st = (Ok vid, st1) →
  get_service_offering api p "id" st1 = (Ok oid, st2) →
  let k8s := self_k8s st in
  let args := update_args p i vid oid in
  let upgrade := ("upgradeKubernetesCluster", upgrade_args i vid) in
  let scale := ("scaleKubernetesCluster", scale_args i oid (of_int (p_size p))) in
  let st' := (_update_k8s api poll p st).2 in
  reads st st2
  ∧ (has_changed args k8s ["kubernetesversionid"] = false →
     (has_changed args k8s ["serviceofferingid"; "size"] = false →
      _update_k8s api poll p st = (Ok k8s, st2))
     ∧ (has_changed args k8s ["serviceofferingid"; "size"] = true →
        calls st' = calls st2 ++ [scale]))
  ∧ (has_changed args k8s ["kubernetesversionid"] = true →
     ∀ r1 s1, call_polled api poll p "upgradeKubernetesCluster" (upgrade_args i vid)
                (with_result "changed" (VBool true) st2) = (r1, s1) →
       calls s1 = calls st2 ++ [upgrade]
       ∧ (∀ k1, r1 = Ok k1 →
          (has_changed args k1 ["serviceofferingid"; "size"] = false →
           _update_k8s api poll p st = (Ok k1, s1))
          ∧ (has_changed args k1 ["serviceofferingid"; "size"] = true →
             calls st' = calls st2 ++ [upgrade; scale]))
       ∧ ((∀ k1, r1 ≠ Ok k1) → calls st' = calls st2 ++ [upgrade])).
Proof.
  intros Hc Hi Hv Ho k8s args upgrade scale st'.
  destruct (update_run _ _ _ _ _ _ Hi Hv Ho) as (Hv1 & Hv2 & Ho1 & Ho2 & Hrun).
  fold k8s args in Hrun. subst st'. rewrite Hrun.
  split.
  { transitivity st1.
    - pose proof (reads_get_version api p "id" st) as H. now rewrite Hv in H.
    - pose proof (reads_get_service_offering api p "id" st1) as H. now rewrite Ho in H. }
  split.
  - intros Hsame.
    assert (Hg : version_group api poll p args k8s st2 = (Ok k8s, st2)).
    { unfold args. rewrite (version_group_run _ _ _ _ _ Hv1 Hv2).
      fold args. now rewrite Hsame. }
    rewrite (bind_ok _ _ _ _ _ Hg).
    split; intros Hs.
    + rewrite bind_ret_r. unfold args in *. now rewrite scale_group_run, Hs.
    + rewrite bind_ret_r. unfold args in *. rewrite scale_group_run, Hs, Hc by done.
      now rewrite call_polled_calls.
  - intros Hdiff r1 s1 Hup.
    assert (Hg : version_group api poll p args k8s st2 = (r1, s1)).
    { unfold args. rewrite (version_group_run _ _ _ _ _ Hv1 Hv2).
      fold args. now rewrite Hdiff, Hc. }
    assert (Hs1 : calls s1 = calls st2 ++ [upgrade]).
    { pose proof (call_polled_calls "upgradeKubernetesCluster" (upgrade_args i vid)
                    (with_result "changed" (VBool true) st2)) as H.
      now rewrite Hup in H. }
    split; [exact Hs1|]. split.
    + intros k1 ->. rewrite (bind_ok _ _ _ _ _ Hg).
      destruct (call_polled_fields "upgradeKubernetesCluster" (upgrade_args i vid)
                  (with_result "changed" (VBool true) st2)) as (_ & _ & Hso & _).
      rewrite Hup in Hso. cbn in Hso.
      assert (Ho1' : truthy (self_service_offering s1) = true) by now rewrite Hso.
      assert (Ho2' : subscript (self_service_offering s1) "id" = Ok oid)
        by now rewrite Hso.
      split; intros Hs.
      * rewrite bind_ret_r. unfold args in *. now rewrite scale_group_run, Hs.
      * rewrite bind_ret_r. unfold args in *. rewrite scale_group_run, Hs, Hc by done.
        rewrite call_polled_calls. cbn [calls with_result].
        now rewrite Hs1, <- app_assoc.
    + intros Hfail. unfold bind. rewrite Hg. cbn.
      destruct r1 as [k1|msg|e]; [now destruct (Hfail k1)|exact Hs1..].
Qed.

(** ** Check mode *)


(** ** A second run *)

Lemma get_k8s_post st k st' :
  get_k8s api p st = (Ok k, st') → self_k8s st' = k.
Proof.
  unfold get_k8s. rewrite bind_gets.
  destruct (truthy (self_k8s st)) eqn:Hc; cbn [negb].
  - now intros [= <- <-].
  - intros H. apply bind_inv in H as (early & s1 & He & H).
    destruct early as [c|].
    + injection H as <- <-. unfold get_k8s_by_id in He.
      destruct (truthy (params_get p "id")); [|discriminate].
      apply bind_inv in He as (k8s & s0 & _ & He).
      destruct (truthy k8s); [|discriminate].
      apply bind_inv in He as (c0 & s2 & Hl & He). apply lift_inv in Hl as [_ ->].
      rewrite bind_modify in He. now injection He as <- <-.
    + apply bind_inv in H as (k8s & s2 & _ & H).
      apply bind_inv in H as (u & s3 & _ & H).
      now injection H as <- <-.
Qed.

Lemma query_api_inv command args st r st' :
  query_api api command args st = (r, st') →
  ∃ w, st' = with_call (command, args) w st.
Proof. unfold query_api. intros [= _ <-]. now eexists. Qed.





(** * Further properties of the module *)

(** ** Resolution *)







Lemma params_get_service_offering :
  params_get p "service_offering" = of_str (p_service_offering p).
Proof. reflexivity. Qed.



(** X4.  Once resolved, never resolved again: after a call of a resolver
    that has ended well, the same call answers the same without any call
    to the API and leaves the state as it is. *)
Theorem resolution_is_memoised key st x st' :
  (get_version api p key st = (Ok x, st') →
   get_version api p key st' = (Ok x, st'))
  ∧ (get_service_offering api p key st = (Ok x, st') →
     get_service_offering api p key st' = (Ok x, st')).
Proof.
  split; intros H.
  - destruct (get_version_post _ _ _ _ H) as (Ht & Hs & _).
    now rewrite get_version_cached, Hs.
  - destruct (get_service_offering_post _ _ _ _ H) as (Ht & Hs & _).
    now rewrite get_service_offering_cached, Hs.
Qed.

(** ** The cached record *)

Lemma get_k8s_by_name st r w :
  truthy (self_k8s st) = false →
  p_id p = None →
  api "listKubernetesClusters" {[ "name" := VStr (p_name p) ]} (remote st) = (r, w) →
  let st1 := with_call ("listKubernetesClusters", {[ "name" := VStr (p_name p) ]}) w st in
  get_k8s api p st
  = match r with
    | Ok k8s =>
        if truthy k8s then
          match first_cluster k8s with
          | Ok c => (Ok c, with_k8s c st1)
          | FailJson msg => (FailJson msg, st1)
          | Raise e => (Raise e, st1)
          end
        else (Ok (self_k8s st), st1)
    | FailJson msg => (FailJson msg, st1)
    | Raise e => (Raise e, st1)
    end.
Proof.
  intros Hc Hid Ha st1. unfold get_k8s.
  rewrite bind_gets, Hc. cbn [negb]. rewrite params_get_id, params_get_name, Hid.
  unfold get_k8s_by_id. cbn [of_str truthy]. rewrite bind_ret, insert_empty.
  unfold bind at 1. rewrite (query_api_run _ _ _ _ _ Ha). cbn [fst snd].
  destruct r as [k8s|msg|e]; [|done..].
  destruct (truthy k8s); [|done].
  unfold bind, lift, modify, gets. cbn.
  now destruct (first_cluster k8s).
Qed.

(** X5.  A record that a lookup has found is cached: the next call of the
    reader answers with it without any call to the API.  A lookup that
    finds nothing caches nothing, so the next call looks up again. *)
Theorem found_record_is_cached st :
  (∀ k st', get_k8s api p st = (Ok k, st') → truthy k = true →
     get_k8s api p st' = (Ok k, st'))
  ∧ (∀ r1 w1 r2 w2,
       truthy (self_k8s st) = false →
       p_id p = None →
       let by_name := ("listKubernetesClusters",
                       ({[ "name" := VStr (p_name p) ]} : gmap string value)) in
       api by_name.1 by_name.2 (remote st) = (Ok r1, w1) → truthy r1 = false →
       api by_name.1 by_name.2 w1 = (Ok r2, w2) → truthy r2 = false →
       get_k8s api p st = (Ok (self_k8s st), with_call by_name w1 st)
       ∧ get_k8s api p (with_call by_name w1 st)
         = (Ok (self_k8s st), with_call by_name w2 (with_call by_name w1 st))).
Proof.
  split.
  - intros k st' H Ht. pose proof (get_k8s_post _ _ _ H) as Hk.
    rewrite get_k8s_cached; rewrite Hk; done.
  - intros r1 w1 r2 w2 Hc Hid by_name H1 Hf1 H2 Hf2. cbn in H1, H2. split.
    + rewrite (get_k8s_by_name st _ _ Hc Hid H1). now rewrite Hf1.
    + rewrite (get_k8s_by_name (with_call by_name w1 st) (Ok r2) w2 Hc Hid H2).
      now rewrite Hf2.
Qed.

(** X6.  A response of the lookup that is not empty but has no
    ['kubernetescluster'] key raises [KeyError], and one whose list of
    clusters is empty raises [IndexError]; in both cases the call has been
    made and nothing is cached. *)
Theorem malformed_listing_raises st resp w :
  truthy (self_k8s st) = false →
  p_id p = None →
  api "listKubernetesClusters" {[ "name" := VStr (p_name p) ]} (remote st)
  = (Ok (VDict resp), w) →
  resp ≠ ∅ →
  let st1 := with_call ("listKubernetesClusters", {[ "name" := VStr (p_name p) ]}) w st in
  (resp !! "kubernetescluster" = None →
   get_k8s api p st = (Raise (KeyError "kubernetescluster"), st1))
  ∧ (resp !! "kubernetescluster" = Some (VList []) →
     get_k8s api p st = (Raise IndexError, st1)).
Proof.
  intros Hc Hid Ha Hne st1.
  pose proof (get_k8s_by_name st _ _ Hc Hid Ha) as H. cbv beta iota zeta in H.
  assert (Ht : truthy (VDict resp) = true).
  { cbn. now rewrite bool_decide_eq_false_2. }
  rewrite Ht in H. unfold first_cluster in H. cbn in H.
  split; intros Hk; rewrite Hk in H; exact H.
Qed.

(** ** The config fetch *)

(** X7.  The config fetch on a cached record: with a ['config'] field it
    does nothing; without one it makes exactly one call, and when the
    answer is empty or has no ['clusterconfig'] it returns the record as it
    is, when the answer has the config data it returns and caches the
    record with that one field added; a record with neither ['config'] nor
    ['id'] raises [KeyError] before any call. *)
Theorem config_fetch_is_lazy st d :
  self_k8s st = VDict d →
  d ≠ ∅ →
  (is_Some (d !! "config") → _k8s_config api p st = (Ok (VDict d), st))
  ∧ (d !! "config" = None → d !! "id" = None →
     _k8s_config api p st = (Raise (KeyError "id"), st))
  ∧ (d !! "config" = None →
     ∀ i resp w, d !! "id" = Some i →
       api "getKubernetesClusterConfig" {[ "id" := i ]} (remote st) = (Ok resp, w) →
       let st1 := with_call ("getKubernetesClusterConfig", {[ "id" := i ]}) w st in
       (truthy resp = false ∨ (∃ r, resp = VDict r ∧ r !! "clusterconfig" = None) →
        _k8s_config api p st = (Ok (VDict d), st1))
       ∧ (∀ cc cd, field resp "clusterconfig" = Some cc →
            field cc "configdata" = Some cd →
            _k8s_config api p st
            = (Ok (VDict (<[ "config" := cd ]> d)),
               with_k8s (VDict (<[ "config" := cd ]> d)) st1))).
Proof.
  intros Hk Hne.
  assert (Ht : truthy (self_k8s st) = true).
  { rewrite Hk. cbn. now rewrite bool_decide_eq_false_2. }
  assert (Hrun : _k8s_config api p st
                 = if bool_decide (is_Some (d !! "config")) then (Ok (VDict d), st)
                   else fetch_config api (VDict d) st).
  { unfold _k8s_config. rewrite (bind_ok _ _ _ _ _ (get_k8s_cached st Ht)), Ht, Hk.
    rewrite (bind_lift _ _ _ (bool_decide (is_Some (d !! "config")))) by done.
    now destruct (bool_decide _). }
  rewrite Hrun. split; [|split].
  - intros Hs. now rewrite bool_decide_eq_true_2.
  - intros Hc Hi. rewrite bool_decide_eq_false_2 by (rewrite Hc; now intros [? ?]).
    unfold fetch_config, bind, lift. cbn. now rewrite Hi.
  - intros Hc i resp w Hi Ha st1.
    rewrite bool_decide_eq_false_2 by (rewrite Hc; now intros [? ?]).
    unfold fetch_config.
    rewrite (bind_lift _ _ _ i) by (cbn; now rewrite Hi).
    rewrite (bind_ok _ _ _ _ _ (query_api_run _ _ _ _ _ Ha)). fold st1. split.
    + intros [Hf|(r & -> & Hr)]; [now rewrite Hf|].
      destruct (truthy (VDict r)); [|done].
      rewrite (bind_lift _ _ _ false); [done|].
      cbn. rewrite bool_decide_eq_false_2; [done|]. rewrite Hr. now intros [? ?].
    + intros cc cd Hcc Hcd. rewrite (truthy_field _ _ _ Hcc).
      rewrite (bind_lift _ _ _ _ (contains_field _ _ _ Hcc)).
      rewrite (bind_lift _ _ _ _ (subscript_field _ _ _ Hcc)).
      rewrite (bind_lift _ _ _ _ (subscript_field _ _ _ Hcd)).
      rewrite (bind_lift _ _ _ (VDict (<[ "config" := cd ]> d))) by done.
      now rewrite bind_modify.
Qed.

(** ** Failures on the way *)

(** The update step stops at the first reference that does not resolve. *)
Lemma update_stops st i :
  field (self_k8s st) "id" = Some i →
  (∀ msg st1, get_version api p "id" st = (FailJson msg, st1) →
     _update_k8s api poll p st = (FailJson msg, st1))
  ∧ (∀ e st1, get_version api p "id" st = (Raise e, st1) →
       _update_k8s api poll p st = (Raise e, st1))
  ∧ (∀ vid st1 msg st2, get_version api p "id" st = (Ok vid, st1) →
       get_service_offering api p "id" st1 = (FailJson msg, st2) →
       _update_k8s api poll p st = (FailJson msg, st2))
  ∧ (∀ vid st1 e st2, get_version api p "id" st = (Ok vid, st1) →
       get_service_offering api p "id" st1 = (Raise e, st2) →
       _update_k8s api poll p st = (Raise e, st2)).
Proof.
  intros Hi.
  unfold _update_k8s.
  rewrite (bind_ok _ _ _ _ _ (get_k8s_cached st (truthy_field _ _ _ Hi))).
  rewrite (bind_lift _ _ _ _ (subscript_field _ _ _ Hi)). repeat split.
  - intros msg st1 H. now rewrite (bind_fail _ _ _ _ _ H).
  - intros e st1 H. now rewrite (bind_raise _ _ _ _ _ H).
  - intros vid st1 msg st2 Hv H.
    now rewrite (bind_ok _ _ _ _ _ Hv), (bind_fail _ _ _ _ _ H).
  - intros vid st1 e st2 Hv H.
    now rewrite (bind_ok _ _ _ _ _ Hv), (bind_raise _ _ _ _ _ H).
Qed.

(** X8.  The update step resolves the version and the offering before it
    compares anything: when a record exists and one of the two references
    does not resolve, the invocation ends with the failure of the resolver,
    no mutating call has been made and [changed] is as it was. *)
Theorem unresolved_reference_changes_nothing st k8s st1 i :
  p_state p ≠ absent →
  get_k8s api p st = (Ok k8s, st1) →
  field k8s "id" = Some i →
  let run := main api poll resolve get_result p st in
  let untouched st' :=
    mutating_calls (calls st') = mutating_calls (calls st) ∧ changed st' = changed st in
  (∀ msg st2, get_version api p "id" st1 = (FailJson msg, st2) →
     run = (FailJson msg, st2) ∧ untouched st2)
  ∧ (∀ e st2, get_version api p "id" st1 = (Raise e, st2) →
       run = (Raise e, st2) ∧ untouched st2)
  ∧ (∀ vid st2 msg st3, get_version api p "id" st1 = (Ok vid, st2) →
       get_service_offering api p "id" st2 = (FailJson msg, st3) →
       run = (FailJson msg, st3) ∧ untouched st3)
  ∧ (∀ vid st2 e st3, get_version api p "id" st1 = (Ok vid, st2) →
       get_service_offering api p "id" st2 = (Raise e, st3) →
       run = (Raise e, st3) ∧ untouched st3).
Proof.
  intros Hl Hg Hi run untouched.
  pose proof (get_k8s_post _ _ _ Hg) as Hk.
  assert (Hi1 : field (self_k8s st1) "id" = Some i) by now rewrite Hk.
  destruct (update_stops st1 i Hi1) as (U1 & U2 & U3 & U4).
  assert (Hfail : ∀ msg st', _update_k8s api poll p st1 = (FailJson msg, st') →
                    run = (FailJson msg, st')).
  { intros msg st' H. subst run.
    rewrite (main_after_lookup _ _ _ Hl Hg), (truthy_field _ _ _ Hi).
    now apply bind_fail. }
  assert (Hraise : ∀ e st', _update_k8s api poll p st1 = (Raise e, st') →
                     run = (Raise e, st')).
  { intros e st' H. subst run.
    rewrite (main_after_lookup _ _ _ Hl Hg), (truthy_field _ _ _ Hi).
    now apply bind_raise. }
  assert (H01 : reads st st1).
  { pose proof (reads_get_k8s api p st) as H. now rewrite Hg in H. }
  assert (Hun : ∀ st', reads st1 st' → untouched st').
  { intros st' H. assert (H' : reads st st') by now transitivity st1.
    split; [exact (reads_mutating _ _ H')|exact (reads_changed _ _ H')]. }
  repeat split.
  - apply Hfail. now apply U1.
  - apply Hun. pose proof (reads_get_version api p "id" st1) as H'.
    now rewrite H in H'.
  - apply Hun. pose proof (reads_get_version api p "id" st1) as H'.
    now rewrite H in H'.
  - apply Hraise. now apply U2.
  - apply Hun. pose proof (reads_get_version api p "id" st1) as H'.
    now rewrite H in H'.
  - apply Hun. pose proof (reads_get_version api p "id" st1) as H'.
    now rewrite H in H'.
  - apply Hfail. now apply (U3 vid st2).
  - apply Hun. transitivity st2.
    + pose proof (reads_get_version api p "id" st1) as H'. now rewrite H in H'.
    + pose proof (reads_get_service_offering api p "id" st2) as H'.
      now rewrite H0 in H'.
  - apply Hun. transitivity st2.
    + pose proof (reads_get_version api p "id" st1) as H'. now rewrite H in H'.
    + pose proof (reads_get_service_offering api p "id" st2) as H'.
      now rewrite H0 in H'.
  - apply Hraise. now apply (U4 vid st2).
  - apply Hun. transitivity st2.
    + pose proof (reads_get_version api p "id" st1) as H'. now rewrite H in H'.
    + pose proof (reads_get_service_offering api p "id" st2) as H'.
      now rewrite H0 in H'.
  - apply Hun. transitivity st2.
    + pose proof (reads_get_version api p "id" st1) as H'. now rewrite H in H'.
    + pose proof (reads_get_service_offering api p "id" st2) as H'.
      now rewrite H0 in H'.
Qed.

#[local] Instance keeps_memo_refl : Reflexive (@keeps_memo World).
Proof. now intros st. Qed.

#[local] Instance keeps_memo_trans : Transitive (@keeps_memo World).
Proof.
  intros s1 s2 s3 (A1 & B1 & C1) (A2 & B2 & C2). unfold keeps_memo.
  repeat split; congruence.
Qed.

Lemma steps_query_api (R : relation (acs World)) command args :
  (∀ st w, R st (with_call (command, args) w st)) →
  steps R (query_api api command args).
Proof. intros H st. apply H. Qed.

Lemma steps_poll_job (R : relation (acs World)) job key :
  (∀ st w, R st (with_remote w st)) → steps R (poll_job poll job key).
Proof. intros H st. apply H. Qed.



Lemma find_entry_none_wanted e rest : find_entry VNone (e :: rest) = Raise AttributeError.
Proof. reflexivity. Qed.


(** ** Records without a state *)

Lemma k8s_config_keeps_dict st d k st' :
  self_k8s st = VDict d → d ≠ ∅ →
  _k8s_config api p st = (Ok k, st') →
  ∃ d', self_k8s st' = VDict d' ∧ d' ≠ ∅ ∧ d' !! "state" = d !! "state".
Proof.
  intros Hk Hne H.
  assert (Ht : truthy (self_k8s st) = true).
  { rewrite Hk. cbn. now rewrite bool_decide_eq_false_2. }
  assert (Hsame : ∀ s : acs World, self_k8s s = self_k8s st →
            ∃ d', self_k8s s = VDict d' ∧ d' ≠ ∅ ∧ d' !! "state" = d !! "state").
  { intros s Hs. exists d. now rewrite Hs, Hk. }
  unfold _k8s_config in H.
  rewrite (bind_ok _ _ _ _ _ (get_k8s_cached st Ht)), Ht in H.
  apply bind_inv in H as (has_config & s0 & Hl & H). apply lift_inv in Hl as [_ ->].
  destruct has_config; cbn [negb] in H; [injection H as _ <-; now apply Hsame|].
  unfold fetch_config in H.
  apply bind_inv in H as (id & s0 & Hl & H). apply lift_inv in Hl as [_ ->].
  apply bind_inv in H as (config & s1 & Hq & H).
  apply query_api_inv in Hq as (w & ->).
  destruct (truthy config); [|injection H as _ <-; now apply Hsame].
  apply bind_inv in H as (has_payload & s0 & Hl & H). apply lift_inv in Hl as [_ ->].
  destruct has_payload; [|injection H as _ <-; now apply Hsame].
  apply bind_inv in H as (cc & s0 & Hl & H). apply lift_inv in Hl as [_ ->].
  apply bind_inv in H as (cd & s0 & Hl & H). apply lift_inv in Hl as [_ ->].
  apply bind_inv in H as (k8s' & s0 & Hl & H). apply lift_inv in Hl as [Hset ->].
  rewrite bind_modify in H. injection H as _ <-. cbn.
  rewrite Hk in Hset. injection Hset as <-.
  exists (<[ "config" := cd ]> d). split; [done|]. split.
  - apply insert_non_empty.
  - now rewrite lookup_insert_ne.
Qed.

Lemma start_or_stop_stateless st d :
  p_state p ≠ absent →
  self_k8s st = VDict d → d ≠ ∅ → d !! "state" = None →
  start_or_stop api poll p st = (Raise (KeyError "state"), st).
Proof.
  intros Hl Hk Hne Hs.
  assert (Ht : truthy (self_k8s st) = true).
  { rewrite Hk. cbn. now rewrite bool_decide_eq_false_2. }
  assert (Hsl : state_lower (self_k8s st) = Raise (KeyError "state")).
  { rewrite Hk. unfold state_lower. cbn. now rewrite Hs. }
  unfold start_or_stop, start_k8s, stop_k8s.
  destruct (p_state p); try done;
    rewrite (bind_ok _ _ _ _ _ (get_k8s_cached st Ht)), Ht;
    now rewrite (bind_raise _ _ st (KeyError "state") st) by now rewrite Hsl.
Qed.

(** X10.  An invocation whose create or update step returns a record
    without a ['state'] key, as the job handle of an unpolled call is,
    never ends with a report: once the config fetch is through, the
    start/stop step raises [KeyError] on the missing key, and otherwise the
    config fetch has failed. *)
Theorem stateless_step_never_ends_well st k8s st1 d st2 :
  p_state p ≠ absent →
  get_k8s api p st = (Ok k8s, st1) →
  (if truthy k8s then _update_k8s api poll p else _create_k8s api poll resolve p) st1
  = (Ok (VDict d), st2) →
  d ≠ ∅ →
  d !! "state" = None →
  let run := main api poll resolve get_result p st in
  (∀ k st3, _k8s_config api p (with_k8s (VDict d) st2) = (Ok k, st3) →
     run = (Raise (KeyError "state"), st3))
  ∧ (∀ report, run.1 ≠ Ok report).
Proof.
  intros Hl Hg Hstep Hne Hs run.
  assert (Ht : truthy (VDict d) = true).
  { cbn. now rewrite bool_decide_eq_false_2. }
  assert (Hrun : run = bind (_k8s_config api p)
                         (λ _, bind (start_or_stop api poll p)
                            (λ k8s, bind (final_check p k8s)
                               (λ _, bind (gets self_result)
                                  (λ result, ret (get_result k8s result)))))
                         (with_k8s (VDict d) st2)).
  { subst run. rewrite (main_after_lookup _ _ _ Hl Hg), (bind_ok _ _ _ _ _ Hstep), Ht.
    now rewrite bind_assoc, bind_modify. }
  assert (Hok : ∀ k st3, _k8s_config api p (with_k8s (VDict d) st2) = (Ok k, st3) →
                  run = (Raise (KeyError "state"), st3)).
  { intros k st3 Hcfg. rewrite Hrun, (bind_ok _ _ _ _ _ Hcfg).
    destruct (k8s_config_keeps_dict (with_k8s (VDict d) st2) d k st3 eq_refl Hne Hcfg)
      as (d' & Hk' & Hne' & Hs').
    apply bind_raise. apply (start_or_stop_stateless st3 d'); try done. congruence. }
  split; [exact Hok|].
  intros report.
  destruct (_k8s_config api p (with_k8s (VDict d) st2)) as [[k|msg|e] st3] eqn:Hcfg.
  - now rewrite (Hok k st3).
  - now rewrite Hrun, (bind_fail _ _ _ _ _ Hcfg).
  - now rewrite Hrun, (bind_raise _ _ _ _ _ Hcfg).
Qed.

(** ** The report is honest *)

#[local] Instance flag_stays_refl : Reflexive (@flag_stays World).
Proof. now intros st. Qed.

#[local] Instance flag_stays_trans : Transitive (@flag_stays World).
Proof. unfold flag_stays. intros s1 s2 s3 H1 H2 H. auto. Qed.

#[local] Instance honest_refl : Reflexive (@honest World).
Proof. intros st. split; [now right|reflexivity]. Qed.

#[local] Instance honest_trans : Transitive (@honest World).
Proof.
  intros s1 s2 s3 [H1 F1] [H2 F2]. split; [|now transitivity s2].
  destruct H2 as [H2|H2]; [now left|].
  destruct H1 as [H1|H1]; [left; now apply F2|].
  right. congruence.
Qed.

Lemma steps_impl (R R' : relation (acs World)) {A} (m : M World A) :
  (∀ st st', R st st' → R' st st') → steps R m → steps R' m.
Proof. intros H Hm st. apply H, Hm. Qed.

Lemma reads_flag_stays st st' : reads st st' → flag_stays st st'.
Proof. intros [_ H] Hc. unfold same_changed in H. congruence. Qed.

Lemma reads_honest st st' : reads st st' → honest st st'.
Proof.
  intros H. split; [|now apply reads_flag_stays].
  right. now apply reads_mutating.
Qed.

Lemma steps_resolver (R : relation (acs World)) `{!Reflexive R} kind key :
  steps R (λ st : acs World, (resolve p kind key (remote st), st)).
Proof. intros st. reflexivity. Qed.

Lemma flag_stays_call_polled command args :
  steps flag_stays (call_polled api poll p command args).
Proof. intros st H. now rewrite call_polled_changed. Qed.

(** What follows [set_changed] only has to keep the flag. *)
Lemma honest_set_changed_then {A} (m : M World A) :
  steps flag_stays m → steps honest (bind set_changed (λ _, m)).
Proof.
  intros Hm st. unfold set_changed. rewrite bind_modify.
  assert (H : changed (m (with_result "changed" (VBool true) st)).2
              = Some (VBool true)) by (apply Hm, changed_set).
  split; [now left|now intros _].
Qed.

Ltac flag_step :=
  first
    [ apply flag_stays_call_polled
    | apply (steps_impl reads flag_stays _ reads_flag_stays);
      first [ apply reads_get_version | apply reads_get_service_offering ]
    | apply steps_ret; tc_solve | apply steps_lift; tc_solve
    | apply steps_bind; [tc_solve| |intros ?]
    | match goal with
      | |- steps _ (if ?b then _ else _) => destruct b
      end ].

Ltac honest_step :=
  first
    [ apply honest_set_changed_then; repeat flag_step
    | apply (steps_impl reads honest _ reads_honest);
      first [ apply reads_get_k8s | apply reads_get_version
            | apply reads_get_service_offering | apply reads_k8s_config
            | apply reads_final_check | apply reads_fail_on_missing_params ]
    | apply steps_resolver; tc_solve
    | apply steps_ret; tc_solve | apply steps_lift; tc_solve
    | apply steps_gets; tc_solve
    | apply steps_modify; intros ?; apply reads_honest, reads_with_k8s
    | apply steps_bind; [tc_solve| |intros ?]
    | match goal with
      | |- steps _ (if ?b then _ else _) => destruct b
      | |- steps _ (match ?x with _ => _ end) => destruct x
      end ].

Lemma honest_present_k8s : steps honest (present_k8s api poll resolve p).
Proof using Type.
  unfold present_k8s, _create_k8s, _update_k8s, version_group, scale_group,
    get_account, get_domain, get_network, get_project, get_zone.
  repeat honest_step.
Qed.

Lemma honest_start_or_stop : steps honest (start_or_stop api poll p).
Proof using Type.
  unfold start_or_stop, start_k8s, stop_k8s. repeat honest_step.
Qed.

Lemma honest_main : steps honest (main api poll resolve get_result p).
Proof using Type.
  unfold main, reconcile, absent_k8s.
  repeat first [ apply honest_present_k8s | apply honest_start_or_stop
               | honest_step ].
Qed.

(** X11.  A mutating call is never reported as no change: an invocation
    whose trace holds a mutating call reports [changed] true, whatever the
    remote answers and however the invocation ends. *)
Theorem mutation_is_reported w :
  let r := main api poll resolve get_result p (init w) in
  mutating_calls (calls r.2) ≠ [] → changed r.2 = Some (VBool true).
Proof.
  intros r Hm. destruct (honest_main (init w)) as [[H|H] _]; [exact H|].
  now destruct Hm.
Qed.

(** ** The shape of the trace *)

Lemma mutating_calls_app l1 l2 :
  mutating_calls (l1 ++ l2) = mutating_calls l1 ++ mutating_calls l2.
Proof. unfold mutating_calls. apply filter_app. Qed.

Lemma inb_seqs a b A B : inb a A = true → inb b B = true → inb (a ++ b) (seqs A B) = true.
Proof.
  unfold inb. rewrite !bool_decide_eq_true. intros Ha Hb.
  unfold seqs. apply list_elem_of_In, in_flat_map. exists a.
  split; [now apply list_elem_of_In|]. apply in_map. now apply list_elem_of_In.
Qed.

Lemma adds_weaken A A' (st st' : acs World) :
  forallb (λ a, inb a A') A = true → adds A st st' → adds A' st st'.
Proof.
  intros Hsub (l & E & Hin). exists l. split; [done|].
  rewrite forallb_forall in Hsub. apply Hsub.
  apply list_elem_of_In. unfold inb in Hin. now apply bool_decide_eq_true in Hin.
Qed.

Lemma steps_adds_weaken A A' {B} (m : M World B) :
  steps (adds A) m → forallb (λ a, inb a A') A = true → steps (adds A') m.
Proof. intros Hm Hsub st. eapply adds_weaken; [exact Hsub|apply Hm]. Qed.

Lemma reads_adds (st st' : acs World) : reads st st' → adds [[]] st st'.
Proof.
  intros [(l & E & F) _]. exists l. split; [done|].
  replace (mutating_calls l) with (@nil (string * gmap string value)); [done|].
  symmetry. unfold mutating_calls. clear E.
  induction F as [|c l' Hc F IH]; [done|].
  rewrite filter_cons. destruct (decide _) as [Hd|Hd]; [|exact IH].
  unfold mutating in Hd. apply bool_decide_eq_true in Hd.
  now apply reading_not_mutating in Hc.
Qed.

Lemma steps_reads_adds {A} (m : M World A) : steps reads m → steps (adds [[]]) m.
Proof. intros H st. apply reads_adds, H. Qed.

Lemma steps_adds_modify (f : acs World → acs World) :
  (∀ st, calls (f st) = calls st) → steps (adds [[]]) (modify f).
Proof. intros H st. exists []. cbn. now rewrite H, app_nil_r. Qed.

Lemma steps_adds_resolver kind key :
  steps (adds [[]]) (λ st : acs World, (resolve p kind key (remote st), st)).
Proof. intros st. exists []. cbn. now rewrite app_nil_r. Qed.

Lemma steps_adds_call_polled command args :
  bool_decide (command ∈ mutating_commands) = true →
  steps (adds [[command]]) (call_polled api poll p command args).
Proof.
  intros Hm st. exists [(command, args)]. split; [apply call_polled_calls|].
  unfold mutating_calls. rewrite filter_cons, decide_True by exact Hm.
  cbn. unfold inb. apply bool_decide_eq_true. now apply list_elem_of_singleton.
Qed.

Lemma inb_app_l a A B : inb a A = true → inb a (A ++ B) = true.
Proof.
  unfold inb. rewrite !bool_decide_eq_true. intros H. apply elem_of_app. now left.
Qed.

Lemma inb_app_r a A B : inb a B = true → inb a (A ++ B) = true.
Proof.
  unfold inb. rewrite !bool_decide_eq_true. intros H. apply elem_of_app. now right.
Qed.

(** A bind adds what its first part adds, when that part fails, or what
    both parts add one after the other. *)
Lemma steps_adds_bind A B {X Y} (m : M World X) (k : X → M World Y) :
  steps (adds A) m → (∀ a, steps (adds B) (k a)) →
  steps (adds (A ++ seqs A B)) (bind m k).
Proof.
  intros Hm Hk st. destruct (Hm st) as (l1 & E1 & I1). unfold bind.
  destruct (m st) as [[a|msg|e] st1]; cbn in *.
  - destruct (Hk a st1) as (l2 & E2 & I2). exists (l1 ++ l2).
    rewrite E2, E1, app_assoc. split; [done|].
    rewrite mutating_calls_app, fmap_app. now apply inb_app_r, inb_seqs.
  - exists l1. split; [done|]. now apply inb_app_l.
  - exists l1. split; [done|]. now apply inb_app_l.
Qed.

Lemma steps_adds_if A B {X} (b : bool) (m1 m2 : M World X) :
  steps (adds A) m1 → steps (adds B) m2 →
  steps (adds (A ++ B)) (if b then m1 else m2).
Proof.
  intros H1 H2 st. destruct b.
  - destruct (H1 st) as (l & E & I). exists l. split; [done|]. now apply inb_app_l.
  - destruct (H2 st) as (l & E & I). exists l. split; [done|]. now apply inb_app_r.
Qed.

(** Collects the sequences a method can add along its syntax. *)
Ltac adds_auto :=
  lazymatch goal with
  | |- steps (adds _) (bind _ _) =>
      eapply steps_adds_bind; [adds_auto|intros ?; adds_auto]
  | |- steps (adds _) (if _ then _ else _) =>
      eapply steps_adds_if; [adds_auto|adds_auto]
  | |- steps (adds _) (call_polled _ _ _ _ _) =>
      apply steps_adds_call_polled; vm_compute; reflexivity
  | |- _ =>
      first
        [ apply steps_reads_adds;
          first [ apply reads_get_k8s | apply reads_get_version
                | apply reads_get_service_offering | apply reads_k8s_config
                | apply reads_final_check | apply reads_fail_on_missing_params
                | apply steps_ret; tc_solve | apply steps_lift; tc_solve
                | apply steps_gets; tc_solve ]
        | apply steps_adds_modify; reflexivity
        | apply steps_adds_resolver ]
  end.

Lemma adds_main :
  steps (adds (mutating_sequences (p_state p))) (main api poll resolve get_result p).
Proof using Type.
  unfold main, reconcile, present_k8s, absent_k8s, _create_k8s, _update_k8s,
    version_group, scale_group, start_or_stop, start_k8s, stop_k8s, set_changed,
    get_account, get_domain, get_network, get_project, get_zone.
  destruct (p_state p);
    (eapply steps_adds_weaken; [adds_auto|vm_compute; reflexivity]).
Qed.

(** X12.  The mutating commands of an invocation, in the order of the
    calls, are one of the sequences of the lifecycle target: create never
    comes with upgrade or scale, upgrade comes before scale, start or stop
    comes last, delete comes alone, and no command comes twice. *)
Theorem mutating_calls_follow_the_target w :
  let r := main api poll resolve get_result p (init w) in
  (mutating_calls (calls r.2)).*1 ∈ mutating_sequences (p_state p).
Proof.
  intros r. destruct (adds_main (init w)) as (l & E & Hin).
  subst r. rewrite E. cbn [calls init app].
  unfold inb in Hin. now apply bool_decide_eq_true in Hin.
Qed.

(** ** Catalogs are listed once *)

#[local] Instance keeps_listing_refl command memo :
  Reflexive (@keeps_listing World command memo).
Proof. now intros st. Qed.

#[local] Instance keeps_listing_trans command memo :
  Transitive (@keeps_listing World command memo).
Proof. intros s1 s2 s3 [A1 B1] [A2 B2]. split; congruence. Qed.

Lemma count_calls_snoc command l c :
  count_calls command (l ++ [c])
  = if is_command command c then S (count_calls command l)
    else count_calls command l.
Proof.
  unfold count_calls. rewrite filter_app, length_app, filter_cons.
  destruct (decide _) as [H|H].
  - rewrite H. cbn. lia.
  - destruct (is_command command c); [done|]. cbn. lia.
Qed.

Lemma lists_once_frame command memo {A} (m : M World A) :
  steps (keeps_listing command memo) m → lists_once command memo m.
Proof.
  intros Hm st [Hb Hc]. destruct (Hm st) as [E1 E2].
  split; [now rewrite E1|]. intros a _. split; [now rewrite E1|].
  rewrite E1, E2. exact Hc.
Qed.

Lemma lists_once_bind command memo {A B} (m : M World A) (k : A → M World B) :
  lists_once command memo m → (∀ a, lists_once command memo (k a)) →
  lists_once command memo (bind m k).
Proof.
  intros Hm Hk st Hst. destruct (Hm st Hst) as [Hb Hok]. unfold bind.
  destruct (m st) as [[a|msg|e] st1]; cbn in *.
  - apply Hk. now apply (Hok a).
  - split; [exact Hb|discriminate].
  - split; [exact Hb|discriminate].
Qed.

Lemma get_version_calls key st :
  calls (get_version api p key st).2
  = calls st ++ (if truthy (self_version st) then []
                 else [("listKubernetesSupportedVersions", ∅)]).
Proof.
  unfold get_version. rewrite bind_gets.
  destruct (truthy (self_version st)); [cbn; now rewrite app_nil_r|].
  unfold bind, query_api, lift, modify, fail_json, _get_by_key. cbn.
  destruct (api _ _ (remote st)) as [[versions|msg|e] w]; cbn; [|done..].
  destruct (truthy versions); cbn; [|done].
  destruct (subscript versions _) as [l| |]; cbn; [|done..].
  destruct (iterate l) as [entries| |]; cbn; [|done..].
  destruct (find_entry _ entries) as [[v|]| |]; cbn; [|done..].
  now destruct (subscript v "name").
Qed.

Lemma get_service_offering_calls key st :
  calls (get_service_offering api p key st).2
  = calls st ++ (if truthy (self_service_offering st) then []
                 else [("listServiceOfferings", ∅)]).
Proof.
  unfold get_service_offering. rewrite bind_gets.
  destruct (truthy (self_service_offering st)); [cbn; now rewrite app_nil_r|].
  unfold bind, query_api, lift, modify, fail_json, _get_by_key. cbn.
  destruct (api _ _ (remote st)) as [[offerings|msg|e] w]; cbn; [|done..].
  destruct (truthy offerings); cbn; [|done].
  destruct (subscript offerings _) as [l| |]; cbn; [|done..].
  destruct (iterate l) as [entries| |]; cbn; [|done..].
  destruct (find_entry _ entries) as [[v|]| |]; cbn; [|done..].
  now destruct (subscript v "name").
Qed.

Lemma lists_once_get_version key :
  lists_once "listKubernetesSupportedVersions" self_version (get_version api p key).
Proof.
  intros st [Hb Hc]. unfold listed_once. rewrite get_version_calls.
  destruct (truthy (self_version st)) eqn:Ht.
  - rewrite app_nil_r. split; [exact Hb|]. intros a Ha.
    rewrite get_version_cached in * by exact Ht. cbn. now split.
  - assert (H0 : count_calls "listKubernetesSupportedVersions" (calls st) = 0%nat).
    { assert (count_calls "listKubernetesSupportedVersions" (calls st) ≠ 1%nat)
        by (intros H1; specialize (Hc H1); congruence).
      lia. }
    rewrite count_calls_snoc, H0. cbv beta iota delta [is_command fst].
    rewrite String.eqb_refl.
    split; [lia|].
    intros a Ha. split; [lia|]. intros _.
    destruct (get_version api p key st) as [r st'] eqn:E. cbn in Ha |- *. subst r.
    now destruct (get_version_post _ _ _ _ E) as (H & _).
Qed.

Lemma lists_once_get_service_offering key :
  lists_once "listServiceOfferings" self_service_offering
    (get_service_offering api p key).
Proof.
  intros st [Hb Hc]. unfold listed_once. rewrite get_service_offering_calls.
  destruct (truthy (self_service_offering st)) eqn:Ht.
  - rewrite app_nil_r. split; [exact Hb|]. intros a Ha.
    rewrite get_service_offering_cached in * by exact Ht. cbn. now split.
  - assert (H0 : count_calls "listServiceOfferings" (calls st) = 0%nat).
    { assert (count_calls "listServiceOfferings" (calls st) ≠ 1%nat)
        by (intros H1; specialize (Hc H1); congruence).
      lia. }
    rewrite count_calls_snoc, H0. cbv beta iota delta [is_command fst].
    rewrite String.eqb_refl.
    split; [lia|].
    intros a Ha. split; [lia|]. intros _.
    destruct (get_service_offering api p key st) as [r st'] eqn:E.
    cbn in Ha |- *. subst r.
    now destruct (get_service_offering_post _ _ _ _ E) as (H & _).
Qed.

(** What a write has to show to keep a listing. *)
Ltac keeps_tac :=
  split;
    [ lazymatch goal with
      | |- context [with_call] =>
          cbn [calls with_call]; rewrite count_calls_snoc; reflexivity
      | |- _ => reflexivity
      end
    | reflexivity ].

(** Bounds a method along its syntax, with [leaf] for the methods that are
    known to keep the listing. *)
Ltac keeps_step leaf :=
  first
    [ leaf
    | apply steps_ret; tc_solve | apply steps_lift; tc_solve
    | apply steps_fail_json; tc_solve | apply steps_gets; tc_solve
    | apply steps_resolver; tc_solve
    | apply steps_modify; intros ?; keeps_tac
    | apply steps_query_api; intros ? ?; keeps_tac
    | apply steps_poll_job; intros ? ?; keeps_tac
    | apply steps_bind; [tc_solve| |intros ?]
    | match goal with
      | |- steps _ (if ?b then _ else _) => destruct b
      | |- steps _ (match ?x with _ => _ end) => destruct x
      end ].

Lemma versions_kept_get_k8s :
  steps (keeps_listing "listKubernetesSupportedVersions" self_version) (get_k8s api p).
Proof using Type. unfold get_k8s, get_k8s_by_id. repeat keeps_step fail. Qed.

Lemma offerings_kept_get_k8s :
  steps (keeps_listing "listServiceOfferings" self_service_offering) (get_k8s api p).
Proof using Type. unfold get_k8s, get_k8s_by_id. repeat keeps_step fail. Qed.

Lemma versions_kept_k8s_config :
  steps (keeps_listing "listKubernetesSupportedVersions" self_version)
    (_k8s_config api p).
Proof using Type.
  unfold _k8s_config, fetch_config.
  repeat keeps_step ltac:(apply versions_kept_get_k8s).
Qed.

Lemma offerings_kept_k8s_config :
  steps (keeps_listing "listServiceOfferings" self_service_offering)
    (_k8s_config api p).
Proof using Type.
  unfold _k8s_config, fetch_config.
  repeat keeps_step ltac:(apply offerings_kept_get_k8s).
Qed.

Lemma versions_kept_start_or_stop :
  steps (keeps_listing "listKubernetesSupportedVersions" self_version)
    (start_or_stop api poll p).
Proof using Type.
  unfold start_or_stop, start_k8s, stop_k8s, call_polled, set_changed.
  repeat keeps_step ltac:(apply versions_kept_get_k8s).
Qed.

Lemma offerings_kept_start_or_stop :
  steps (keeps_listing "listServiceOfferings" self_service_offering)
    (start_or_stop api poll p).
Proof using Type.
  unfold start_or_stop, start_k8s, stop_k8s, call_polled, set_changed.
  repeat keeps_step ltac:(apply offerings_kept_get_k8s).
Qed.

Lemma versions_kept_get_service_offering key :
  steps (keeps_listing "listKubernetesSupportedVersions" self_version)
    (get_service_offering api p key).
Proof using Type.
  unfold get_service_offering, _get_by_key. repeat keeps_step fail.
Qed.

Lemma offerings_kept_get_version key :
  steps (keeps_listing "listServiceOfferings" self_service_offering)
    (get_version api p key).
Proof using Type. unfold get_version, _get_by_key. repeat keeps_step fail. Qed.

Ltac lists_once_step leaf :=
  first
    [ apply lists_once_get_version
    | apply lists_once_get_service_offering
    | apply lists_once_frame; leaf
    | apply lists_once_bind; [|intros ?]
    | match goal with
      | |- lists_once _ _ (if ?b then _ else _) => destruct b
      | |- lists_once _ _ (match ?x with _ => _ end) => destruct x
      end
    | solve [ apply lists_once_frame; repeat keeps_step fail ] ].

Lemma versions_listed_once_present_k8s :
  lists_once "listKubernetesSupportedVersions" self_version
    (present_k8s api poll resolve p).
Proof using Type.
  unfold present_k8s, _create_k8s, _update_k8s, version_group, scale_group,
    call_polled, get_account, get_domain, get_network, get_project, get_zone,
    set_changed, fail_on_missing_params.
  repeat lists_once_step
    ltac:(first [ apply versions_kept_get_k8s | apply versions_kept_k8s_config
                | apply versions_kept_get_service_offering ]).
Qed.

Lemma offerings_listed_once_present_k8s :
  lists_once "listServiceOfferings" self_service_offering
    (present_k8s api poll resolve p).
Proof using Type.
  unfold present_k8s, _create_k8s, _update_k8s, version_group, scale_group,
    call_polled, get_account, get_domain, get_network, get_project, get_zone,
    set_changed, fail_on_missing_params.
  repeat lists_once_step
    ltac:(first [ apply offerings_kept_get_k8s | apply offerings_kept_k8s_config
                | apply offerings_kept_get_version ]).
Qed.

Lemma lists_once_main_versions :
  lists_once "listKubernetesSupportedVersions" self_version
    (main api poll resolve get_result p).
Proof using Type.
  unfold main, reconcile, absent_k8s, call_polled, set_changed, final_check.
  repeat first
    [ apply versions_listed_once_present_k8s
    | lists_once_step
        ltac:(first [ apply versions_kept_get_k8s
                    | apply versions_kept_start_or_stop ]) ].
Qed.

Lemma lists_once_main_offerings :
  lists_once "listServiceOfferings" self_service_offering
    (main api poll resolve get_result p).
Proof using Type.
  unfold main, reconcile, absent_k8s, call_polled, set_changed, final_check.
  repeat first
    [ apply offerings_listed_once_present_k8s
    | lists_once_step
        ltac:(first [ apply offerings_kept_get_k8s
                    | apply offerings_kept_start_or_stop ]) ].
Qed.

(** X13.  Each catalog is listed at most once in an invocation: however
    often the version and the offering are asked for, the trace holds at
    most one call of each of the two listing commands. *)
Theorem catalogs_are_listed_once w :
  let r := main api poll resolve get_result p (init w) in
  (count_calls "listKubernetesSupportedVersions" (calls r.2) ≤ 1)%nat
  ∧ (count_calls "listServiceOfferings" (calls r.2) ≤ 1)%nat.
Proof.
  intros r. split.
  - apply lists_once_main_versions. split; [cbn; lia|discriminate].
  - apply lists_once_main_offerings. split; [cbn; lia|discriminate].
Qed.

(** ** A record that is held is not looked up again *)

#[local] Instance holds_record_refl : Reflexive (@holds_record World).
Proof. now intros st. Qed.

#[local] Instance holds_record_trans : Transitive (@holds_record World).
Proof.
  intros s1 s2 s3 H1 H2 Ht. destruct (H1 Ht) as [Ht2 E1].
  destruct (H2 Ht2) as [Ht3 E2]. split; [exact Ht3|congruence].
Qed.

Lemma steps_lift_bind (R : relation (acs World)) `{!Reflexive R} {A B}
    (o : outcome A) (k : A → M World B) :
  (∀ a, o = Ok a → steps R (k a)) → steps R (bind (lift o) k).
Proof.
  intros H st. unfold bind, lift. destruct o as [a|msg|e]; cbn; [|done..].
  now apply H.
Qed.

Lemma set_item_truthy v key x v' : set_item v key x = Ok v' → truthy v' = true.
Proof.
  destruct v as [| | | | |d]; try discriminate. intros [= <-]. cbn.
  apply negb_true_iff, bool_decide_eq_false, insert_non_empty.
Qed.

Lemma holds_get_k8s : steps holds_record (get_k8s api p).
Proof using Type.
  intros st Ht. rewrite (get_k8s_cached st Ht). now split.
Qed.

(** What a write has to show to keep the record held. *)
Ltac holds_tac :=
  intros ?; split;
    [ cbn [self_k8s with_call with_remote with_result with_version
           with_service_offering with_k8s];
      first [ assumption | eapply set_item_truthy; eassumption ]
    | lazymatch goal with
      | |- context [with_call] =>
          cbn [calls with_call]; rewrite count_calls_snoc; reflexivity
      | |- _ => reflexivity
      end ].

Ltac holds_step leaf :=
  first
    [ leaf
    | apply holds_get_k8s
    | apply steps_ret; tc_solve | apply steps_fail_json; tc_solve
    | apply steps_gets; tc_solve
    | apply steps_resolver; tc_solve
    | apply steps_modify; intros ?; holds_tac
    | apply steps_query_api; intros ? ?; holds_tac
    | apply steps_poll_job; intros ? ?; holds_tac
    | apply steps_lift_bind; [tc_solve|intros ? ?]
    | apply steps_lift; tc_solve
    | apply steps_bind; [tc_solve| |intros ?]
    | match goal with
      | |- steps _ (if truthy ?v then _ else _) => destruct (truthy v) eqn:?
      | |- steps _ (if ?b then _ else _) => destruct b
      | |- steps _ (match ?x with _ => _ end) => destruct x
      end ].

Lemma holds_k8s_config : steps holds_record (_k8s_config api p).
Proof using Type. unfold _k8s_config, fetch_config. repeat holds_step fail. Qed.

Lemma holds_start_or_stop : steps holds_record (start_or_stop api poll p).
Proof using Type.
  unfold start_or_stop, start_k8s, stop_k8s, call_polled, set_changed.
  repeat holds_step fail.
Qed.

Lemma holds_get_version key : steps holds_record (get_version api p key).
Proof using Type. unfold get_version, _get_by_key. repeat holds_step fail. Qed.

Lemma holds_get_service_offering key :
  steps holds_record (get_service_offering api p key).
Proof using Type.
  unfold get_service_offering, _get_by_key. repeat holds_step fail.
Qed.

Lemma holds_update_k8s : steps holds_record (_update_k8s api poll p).
Proof using Type.
  unfold _update_k8s, version_group, scale_group, call_polled, set_changed.
  repeat holds_step
    ltac:(first [ apply holds_get_version | apply holds_get_service_offering ]).
Qed.

Lemma holds_at {A} (m : M World A) st :
  steps holds_record m →
  truthy (self_k8s st) = true →
  count_calls "listKubernetesClusters" (calls (m st).2)
  = count_calls "listKubernetesClusters" (calls st).
Proof. intros Hm Ht. now destruct (Hm st Ht). Qed.

(** X14.  Once a lookup has found the cluster, the invocation does not
    list the clusters again: the update step, the config fetch, start or
    stop and the delete step all work on the record that is held. *)
Theorem found_cluster_is_not_listed_again st k8s st1 :
  get_k8s api p st = (Ok k8s, st1) →
  truthy k8s = true →
  let r := main api poll resolve get_result p st in
  count_calls "listKubernetesClusters" (calls r.2)
  = count_calls "listKubernetesClusters" (calls st1).
Proof.
  intros Hg Ht r. subst r.
  assert (Hh : truthy (self_k8s st1) = true)
    by now rewrite (get_k8s_post _ _ _ Hg).
  assert (Hd : p_state p = absent ∨ p_state p ≠ absent)
    by (destruct (p_state p); first [left; reflexivity|right; discriminate]).
  destruct Hd as [Ha|Ha].
  - rewrite main_state. unfold reconcile. rewrite Ha.
    unfold absent_k8s. rewrite (bind_ok _ _ _ _ _ Hg), Ht.
    apply holds_at; [|exact Hh].
    unfold call_polled, set_changed. repeat holds_step fail.
  - rewrite (main_after_lookup _ _ _ Ha Hg), Ht.
    apply holds_at; [|exact Hh].
    unfold final_check.
    repeat holds_step
      ltac:(first [ apply holds_update_k8s | apply holds_k8s_config
                  | apply holds_start_or_stop ]).
Qed.

(** ** With check mode off, a change that is reported has been made *)

Lemma hoare_bind {A B} (P Q R : acs World → Prop) (m : M World A)
    (k : A → M World B) :
  hoare P m Q → (∀ a, hoare Q (k a) R) → hoare P (bind m k) R.
Proof.
  intros Hm Hk st HP b. specialize (Hm st HP). unfold bind.
  destruct (m st) as [[a|msg|e] st1]; cbn in *; [|discriminate..].
  apply Hk. now apply (Hm a).
Qed.

Lemma hoare_any {A} (m : M World A) : hoare (λ _, True) m (λ _, True).
Proof. now intros st _ a _. Qed.

Lemma hoare_reads_earned {A} (m : M World A) : steps reads m → hoare earned m earned.
Proof.
  intros Hm st He a _ Hc. pose proof (Hm st) as Hr. unfold mutated.
  rewrite (reads_mutating _ _ Hr). apply He.
  now rewrite <- (reads_changed _ _ Hr).
Qed.

Lemma hoare_call_polled command args :
  mutating (command, args) = true →
  hoare (λ _, True) (call_polled api poll p command args) mutated.
Proof.
  intros Hm st _ a _. unfold mutated.
  rewrite call_polled_calls, mutating_calls_app. intros E.
  apply app_eq_nil in E as [_ E]. unfold mutating_calls in E.
  rewrite filter_cons in E. now destruct (decide _).
Qed.

Lemma hoare_set_changed_then {A} (m : M World A) :
  hoare (λ _, True) m mutated → hoare earned (bind set_changed (λ _, m)) earned.
Proof.
  intros Hm st _ a Ha _. unfold set_changed in *. rewrite bind_modify in *.
  now apply (Hm _ I a).
Qed.

Ltac mutated_step :=
  first
    [ apply hoare_call_polled; reflexivity
    | apply hoare_bind with (Q := λ _, True); [apply hoare_any|intros ?] ].

Ltac earned_step leaf :=
  first
    [ leaf
    | apply hoare_set_changed_then; repeat mutated_step
    | apply hoare_reads_earned;
      first [ apply reads_get_k8s | apply reads_get_version
            | apply reads_get_service_offering | apply reads_k8s_config
            | apply reads_final_check | apply reads_fail_on_missing_params
            | apply reads_resolver
            | apply steps_ret; tc_solve | apply steps_lift; tc_solve
            | apply steps_gets; tc_solve
            | apply steps_modify; intros ?; apply reads_with_k8s ]
    | apply hoare_bind with (Q := earned); [|intros ?]
    | match goal with
      | |- hoare _ (if ?b then _ else _) _ => destruct b
      | |- hoare _ (match ?x with _ => _ end) _ => destruct x
      end ].

Section Earned.
Hypothesis check_mode_off : check_mode p = false.

Lemma earned_present_k8s : hoare earned (present_k8s api poll resolve p) earned.
Proof using check_mode_off.
  unfold present_k8s, _create_k8s, _update_k8s, version_group, scale_group,
    get_account, get_domain, get_network, get_project, get_zone.
  rewrite check_mode_off. cbn [negb].
  repeat earned_step fail.
Qed.

Lemma earned_start_or_stop : hoare earned (start_or_stop api poll p) earned.
Proof using check_mode_off.
  unfold start_or_stop, start_k8s, stop_k8s.
  rewrite check_mode_off. cbn [negb].
  repeat earned_step fail.
Qed.

Lemma earned_main : hoare earned (main api poll resolve get_result p) earned.
Proof using check_mode_off.
  unfold main, reconcile, absent_k8s.
  rewrite check_mode_off. cbn [negb].
  repeat earned_step
    ltac:(first [ apply earned_present_k8s | apply earned_start_or_stop ]).
Qed.

End Earned.

(** X15.  With check mode off, an invocation that ends well reports
    [changed] exactly when it has made a mutating call. *)
Theorem change_is_reported_when_made w report st' :
  check_mode p = false →
  main api poll resolve get_result p (init w) = (Ok report, st') →
  changed st' = Some (VBool true) ↔ mutating_calls (calls st') ≠ [].
Proof.
  intros Hc Hm. split.
  - pose proof (earned_main Hc (init w)) as H. rewrite Hm in H.
    apply (H ltac:(discriminate) report eq_refl).
  - intros Hn. destruct (honest_main (init w)) as [[H|H] _].
    + now rewrite Hm in H.
    + rewrite Hm in H. now destruct Hn.
Qed.

(** ** An upgrade that is not polled *)

Lemma call_unpolled command args st r w :
  p_poll_async p = false →
  api command args (remote st) = (Ok r, w) →
  call_polled api poll p command args st = (Ok r, with_call (command, args) w st).
Proof.
  intros Hp Ha. unfold call_polled.
  rewrite (bind_ok _ _ _ _ _ (query_api_run _ _ _ _ _ Ha)).
  now rewrite params_get_poll_async, Hp.
Qed.

Lemma has_changed_missing_offering i vid oid h :
  oid ≠ VNone →
  field h "serviceofferingid" = None →
  has_changed (update_args p i vid oid) h ["serviceofferingid"; "size"] = true.
Proof.
  intros Hn Hf. unfold has_changed. cbn [existsb].
  replace (update_args p i vid oid !! "serviceofferingid") with (Some oid)
    by reflexivity.
  rewrite Hf. now destruct oid.
Qed.

(** X16.  With check mode and polling off, an upgrade is followed by a
    scale call whatever the offering and the size of the cluster are: the
    scale group is compared with the answer of the upgrade call, which is
    the handle of the job and has no offering. *)
Theorem unpolled_upgrade_is_followed_by_scale st i vid st1 oid st2 h w :
  check_mode p = false →
  p_poll_async p = false →
  field (self_k8s st) "id" = Some i →
  get_version api p "id" st = (Ok vid, st1) →
  get_service_offering api p "id" st1 = (Ok oid, st2) →
  oid ≠ VNone →
  has_changed (update_args p i vid oid) (self_k8s st) ["kubernetesversionid"] = true →
  api "upgradeKubernetesCluster" (upgrade_args i vid) (remote st2) = (Ok h, w) →
  field h "serviceofferingid" = None →
  calls (_update_k8s api poll p st).2
  = calls st2 ++ [("upgradeKubernetesCluster", upgrade_args i vid);
                  ("scaleKubernetesCluster", scale_args i oid (of_int (p_size p)))].
Proof.
  intros Hc Hp Hi Hv Ho Hn Hdiff Ha Hh.
  destruct (update_run _ _ _ _ _ _ Hi Hv Ho) as (Hv1 & Hv2 & Ho1 & Ho2 & Hrun).
  rewrite Hrun.
  set (s1 := with_call ("upgradeKubernetesCluster", upgrade_args i vid) w
               (with_result "changed" (VBool true) st2)).
  assert (Hg : version_group api poll p (update_args p i vid oid) (self_k8s st) st2
               = (Ok h, s1)).
  { rewrite (version_group_run _ _ _ _ _ Hv1 Hv2), Hdiff, Hc.
    now apply call_unpolled. }
  rewrite (bind_ok _ _ _ _ _ Hg), bind_ret_r.
  rewrite (scale_group_run i vid oid h s1 Ho1 Ho2).
  rewrite (has_changed_missing_offering _ _ _ _ Hn Hh), Hc.
  rewrite call_polled_calls. cbn [calls with_result with_call s1].
  now rewrite <- app_assoc.
Qed.

(** ** A create without its parameters *)


End Claims.

(** * The properties on the reference cloud *)

(** A stopped cluster is started once, a running one is stopped once, and
    a cluster in an unknown state is left alone. *)
Lemma start_stop_follows_table_witness :
  let stopped := with_k8s (Cloud.record "v-127" "o-23" 4 "Stopped") (init Cloud.empty) in
  let running := with_k8s (Cloud.record "v-127" "o-23" 4 "RUNNING") (init Cloud.empty) in
  let scaling := with_k8s (Cloud.record "v-127" "o-23" 4 "Scaling") (init Cloud.empty) in
  let enable := Cloud.with_state enabled Cloud.task in
  let disable := Cloud.with_state disabled Cloud.task in
  (calls (start_or_stop Cloud.api Cloud.poll enable stopped).2
   = [("startKubernetesCluster", {[ "id" := VStr "k8s-1" ]})]
   ∧ changed (start_or_stop Cloud.api Cloud.poll enable stopped).2 = Some (VBool true))
  ∧ (calls (start_or_stop Cloud.api Cloud.poll disable running).2
     = [("stopKubernetesCluster", {[ "id" := VStr "k8s-1" ]})]
     ∧ changed (start_or_stop Cloud.api Cloud.poll disable running).2 = Some (VBool true))
  ∧ start_or_stop Cloud.api Cloud.poll Cloud.task scaling
    = (Ok (Cloud.record "v-127" "o-23" 4 "Scaling"), scaling).
Proof.
  intros stopped running scaling enable disable.
  split; [|split].
  - apply (start_stop_follows_table Cloud.api Cloud.poll enable stopped
             "Stopped" (VStr "k8s-1")); [discriminate|reflexivity..].
  - apply (start_stop_follows_table Cloud.api Cloud.poll disable running
             "RUNNING" (VStr "k8s-1")); [discriminate|reflexivity..].
  - apply (start_stop_follows_table Cloud.api Cloud.poll Cloud.task scaling
             "Scaling" (VStr "k8s-1")); [discriminate|reflexivity..].
Defined.

(** A cluster that reports the state ERROR fails the invocation, although
    the steps found nothing to change. *)
Lemma error_state_is_fatal_witness :
  let w := Cloud.holding (Cloud.record "v-127" "o-23" 4 "ERROR") in
  (Cloud.run Cloud.task w).1
  = FailJson "Kubernetes cluster named 'k8s-cluster-01' in error state."
  ∧ changed (Cloud.run Cloud.task w).2 = Some (VBool false).
Proof.
  intros w.
  pose (r := reconcile Cloud.api Cloud.poll Cloud.resolve Cloud.task (init w)).
  assert (H : Cloud.run Cloud.task w
              = (FailJson "Kubernetes cluster named 'k8s-cluster-01' in error state.",
                 r.2)).
  { apply (error_state_is_fatal Cloud.api Cloud.poll Cloud.resolve Cloud.get_result
             Cloud.task (init w) (Cloud.value_of r.1) r.2 "ERROR");
      vm_compute; reflexivity. }
  rewrite H. split; [reflexivity|vm_compute; reflexivity].
Defined.

(** The handle of an unpolled delete has no state, and the invocation ends
    with the report of the handle; so does a create under check mode, which
    returns nothing. *)
Lemma final_check_needs_state_witness :
  let unpolled := Cloud.with_poll_async false (Cloud.with_state absent Cloud.task) in
  let w := Cloud.holding (Cloud.record "v-127" "o-23" 4 "Running") in
  let dry := Cloud.with_check_mode true Cloud.task in
  (∃ report, (Cloud.run unpolled w).1 = Ok report
             ∧ report !! "jobid" = Some (VStr "job-1")
             ∧ report !! "state" = None)
  ∧ (∃ report, (Cloud.run dry Cloud.empty).1 = Ok report ∧ report !! "state" = None).
Proof.
  intros unpolled w dry. split.
  - pose (r := reconcile Cloud.api Cloud.poll Cloud.resolve unpolled (init w)).
    destruct (final_check_needs_state Cloud.api Cloud.poll Cloud.resolve
                Cloud.get_result unpolled) as (_ & _ & H).
    unfold Cloud.run. rewrite (H (init w) (Cloud.value_of r.1) r.2).
    + eexists. split; [reflexivity|]. split; vm_compute; reflexivity.
    + vm_compute. reflexivity.
    + right. eexists. split; vm_compute; reflexivity.
  - pose (r := reconcile Cloud.api Cloud.poll Cloud.resolve dry (init Cloud.empty)).
    destruct (final_check_needs_state Cloud.api Cloud.poll Cloud.resolve
                Cloud.get_result dry) as (_ & _ & H).
    unfold Cloud.run. rewrite (H (init Cloud.empty) (Cloud.value_of r.1) r.2).
    + eexists. split; [reflexivity|]. vm_compute; reflexivity.
    + vm_compute. reflexivity.
    + left. vm_compute. reflexivity.
Defined.



(** Removing the cluster takes one delete call; removing nothing takes
    none. *)
Lemma absent_deletes_or_does_nothing_witness :
  let p := Cloud.with_state absent Cloud.task in
  let w := Cloud.holding (Cloud.record "v-127" "o-23" 4 "Running") in
  (calls (Cloud.run p w).2
   = [("listKubernetesClusters", {[ "name" := VStr "k8s-cluster-01" ]});
      ("deleteKubernetesCluster", {[ "id" := VStr "k8s-1" ]})]
   ∧ changed (Cloud.run p w).2 = Some (VBool true))
  ∧ (mutating_calls (calls (Cloud.run p Cloud.empty).2) = []
     ∧ changed (Cloud.run p Cloud.empty).2 = Some (VBool false)).
Proof.
  intros p w. split.
  - pose (g := get_k8s Cloud.api p (init w)).
    destruct (absent_deletes_or_does_nothing Cloud.api Cloud.poll Cloud.resolve
                Cloud.get_result p w (Cloud.value_of g.1) g.2) as [_ H];
      [reflexivity|vm_compute; reflexivity|].
    destruct (H eq_refl eq_refl (VStr "k8s-1") eq_refl) as (Hc & _ & _ & Hch & _).
    split; [exact Hc|exact Hch].
  - pose (g := get_k8s Cloud.api p (init Cloud.empty)).
    destruct (absent_deletes_or_does_nothing Cloud.api Cloud.poll Cloud.resolve
                Cloud.get_result p Cloud.empty (Cloud.value_of g.1) g.2) as [H _];
      [reflexivity|vm_compute; reflexivity|].
    destruct (H eq_refl) as (_ & Hm & Hch). split; [exact Hm|exact Hch].
Defined.


(** A record on an older version is upgraded once and not scaled; one
    with another size is scaled once and not upgraded. *)
Lemma update_groups_witness :
  let older := with_k8s (Cloud.record "v-126" "o-23" 4 "Running")
                 (init (Cloud.holding (Cloud.record "v-126" "o-23" 4 "Running"))) in
  let smaller := with_k8s (Cloud.record "v-127" "o-23" 3 "Running")
                   (init (Cloud.holding (Cloud.record "v-127" "o-23" 3 "Running"))) in
  (calls (_update_k8s Cloud.api Cloud.poll Cloud.task older).2).*1
  = ["listKubernetesSupportedVersions"; "listServiceOfferings";
     "upgradeKubernetesCluster"]
  ∧ (_update_k8s Cloud.api Cloud.poll Cloud.task older).1
    = Ok (Cloud.record "v-127" "o-23" 4 "Running")
  ∧ (calls (_update_k8s Cloud.api Cloud.poll Cloud.task smaller).2).*1
    = ["listKubernetesSupportedVersions"; "listServiceOfferings";
       "scaleKubernetesCluster"].
Proof.
  intros older smaller.
  pose (v := get_version Cloud.api Cloud.task "id" older).
  pose (o := get_service_offering Cloud.api Cloud.task "id" v.2).
  pose (u := call_polled Cloud.api Cloud.poll Cloud.task "upgradeKubernetesCluster"
               (upgrade_args (VStr "k8s-1") (VStr "v-127"))
               (with_result "changed" (VBool true) o.2)).
  assert (Hi : field (self_k8s older) "id" = Some (VStr "k8s-1"))
    by (vm_compute; reflexivity).
  assert (Hv : get_version Cloud.api Cloud.task "id" older = (Ok (VStr "v-127"), v.2))
    by (vm_compute; reflexivity).
  assert (Ho : get_service_offering Cloud.api Cloud.task "id" v.2
               = (Ok (VStr "o-23"), o.2)) by (vm_compute; reflexivity).
  destruct (update_groups Cloud.api Cloud.poll Cloud.task older (VStr "k8s-1")
              (VStr "v-127") v.2 (VStr "o-23") o.2 eq_refl Hi Hv Ho)
    as (_ & _ & Hup).
  assert (Hd : has_changed (update_args Cloud.task (VStr "k8s-1") (VStr "v-127")
                              (VStr "o-23")) (self_k8s older) ["kubernetesversionid"]
               = true) by (vm_compute; reflexivity).
  assert (Hu : call_polled Cloud.api Cloud.poll Cloud.task "upgradeKubernetesCluster"
                 (upgrade_args (VStr "k8s-1") (VStr "v-127"))
                 (with_result "changed" (VBool true) o.2) = (u.1, u.2))
    by (vm_compute; reflexivity).
  destruct (Hup Hd u.1 u.2 Hu) as (_ & Hok & _).
  assert (Hk : u.1 = Ok (Cloud.record "v-127" "o-23" 4 "Running"))
    by (vm_compute; reflexivity).
  destruct (Hok (Cloud.record "v-127" "o-23" 4 "Running") Hk) as [Hsame _].
  assert (Hs : has_changed (update_args Cloud.task (VStr "k8s-1") (VStr "v-127")
                              (VStr "o-23")) (Cloud.record "v-127" "o-23" 4 "Running")
                 ["serviceofferingid"; "size"] = false) by (vm_compute; reflexivity).
  specialize (Hsame Hs).
  pose (v' := get_version Cloud.api Cloud.task "id" smaller).
  pose (o' := get_service_offering Cloud.api Cloud.task "id" v'.2).
  assert (Hi' : field (self_k8s smaller) "id" = Some (VStr "k8s-1"))
    by (vm_compute; reflexivity).
  assert (Hv' : get_version Cloud.api Cloud.task "id" smaller
                = (Ok (VStr "v-127"), v'.2)) by (vm_compute; reflexivity).
  assert (Ho' : get_service_offering Cloud.api Cloud.task "id" v'.2
                = (Ok (VStr "o-23"), o'.2)) by (vm_compute; reflexivity).
  destruct (update_groups Cloud.api Cloud.poll Cloud.task smaller (VStr "k8s-1")
              (VStr "v-127") v'.2 (VStr "o-23") o'.2 eq_refl Hi' Hv' Ho')
    as (_ & Hsc & _).
  assert (Hd1 : has_changed (update_args Cloud.task (VStr "k8s-1") (VStr "v-127")
                               (VStr "o-23")) (self_k8s smaller) ["kubernetesversionid"]
                = false) by (vm_compute; reflexivity).
  assert (Hd2 : has_changed (update_args Cloud.task (VStr "k8s-1") (VStr "v-127")
                               (VStr "o-23")) (self_k8s smaller)
                  ["serviceofferingid"; "size"] = true) by (vm_compute; reflexivity).
  destruct (Hsc Hd1) as [_ Hscale]. specialize (Hscale Hd2).
  split; [|split].
  - rewrite Hsame. vm_compute. reflexivity.
  - rewrite Hsame. reflexivity.
  - rewrite Hscale. vm_compute. reflexivity.
Defined.



(** * Where the spec says more than the module does *)


(** C2 as stated fails twice over on a record that differs from the task
    in the version alone: under check mode no upgrade call is made, and
    without polling the upgrade answers with a job handle, which has none
    of the fields of the scale group, so that a scale call follows. *)
Lemma update_groups_counterexample :
  let record := Cloud.record "v-126" "o-23" 4 "Running" in
  let older := with_k8s record (init (Cloud.holding record)) in
  let args := update_args Cloud.task (VStr "k8s-1") (VStr "v-127") (VStr "o-23") in
  let dry := Cloud.with_check_mode true Cloud.task in
  let unpolled := Cloud.with_poll_async false Cloud.task in
  has_changed args record ["kubernetesversionid"] = true
  ∧ has_changed args record ["serviceofferingid"; "size"] = false
  ∧ count_calls "upgradeKubernetesCluster"
      (calls (_update_k8s Cloud.api Cloud.poll dry older).2) = 0%nat
  ∧ (calls (_update_k8s Cloud.api Cloud.poll unpolled older).2).*1
    = ["listKubernetesSupportedVersions"; "listServiceOfferings";
       "upgradeKubernetesCluster"; "scaleKubernetesCluster"].
Proof.
  intros record older args dry unpolled.
  split; [vm_compute; reflexivity|]. split; [vm_compute; reflexivity|].
  split; vm_compute; reflexivity.
Qed.

(** C3 as stated fails under check mode: a stopped cluster with the target
    [enabled] is reported as changed and no start call is made. *)
Lemma start_under_check_mode_counterexample :
  let dry := Cloud.with_check_mode true (Cloud.with_state enabled Cloud.task) in
  let record := Cloud.record "v-127" "o-23" 4 "Stopped" in
  let stopped := with_k8s record (init (Cloud.holding record)) in
  calls (start_or_stop Cloud.api Cloud.poll dry stopped).2 = []
  ∧ count_calls "startKubernetesCluster" (calls (Cloud.run dry (Cloud.holding record)).2)
    = 0%nat
  ∧ changed (Cloud.run dry (Cloud.holding record)).2 = Some (VBool true).
Proof.
  intros dry record stopped.
  split; [vm_compute; reflexivity|]. split; vm_compute; reflexivity.
Qed.



(** C8 as stated fails under check mode: the cluster is there, [changed]
    is reported, and no delete call is made. *)
Lemma absent_under_check_mode_counterexample :
  let dry := Cloud.with_check_mode true (Cloud.with_state absent Cloud.task) in
  let w := Cloud.holding (Cloud.record "v-127" "o-23" 4 "Running") in
  truthy (Cloud.value_of (get_k8s Cloud.api dry (init w)).1) = true
  ∧ count_calls "deleteKubernetesCluster" (calls (Cloud.run dry w).2) = 0%nat
  ∧ changed (Cloud.run dry w).2 = Some (VBool true).
Proof.
  intros dry w.
  split; [vm_compute; reflexivity|]. split; vm_compute; reflexivity.
Qed.

(** * The further properties on the reference cloud *)

(** A dictionary with a key is not the empty one, and a list with a head is
    not the empty one. *)
Lemma keyed_dict_is_not_empty (d : gmap string value) (k : string) (v : value) :
  d !! k = Some v → d ≠ ∅.
Proof. intros H ->. rewrite lookup_empty in H. inversion H. Qed.

Lemma headed_list_is_not_nil {A} (l : list A) :
  match l with [] => False | _ :: _ => True end → l ≠ [].
Proof. intros H ->. exact H. Qed.




(** A second resolution of the version, and of the offering, lists
    nothing. *)
Lemma resolution_is_memoised_witness :
  let v := get_version Cloud.api Cloud.task "id" (init Cloud.empty) in
  let o := get_service_offering Cloud.api Cloud.task "id" (init Cloud.empty) in
  get_version Cloud.api Cloud.task "id" v.2 = (Ok (VStr "v-127"), v.2)
  ∧ get_service_offering Cloud.api Cloud.task "id" o.2 = (Ok (VStr "o-23"), o.2).
Proof.
  intros v o. split.
  - apply (resolution_is_memoised Cloud.api Cloud.task "id" (init Cloud.empty)).
    vm_compute. reflexivity.
  - apply (resolution_is_memoised Cloud.api Cloud.task "id" (init Cloud.empty)).
    vm_compute. reflexivity.
Defined.

(** A cluster that was found is not listed again; on a cloud without the
    cluster each lookup lists once more. *)
Lemma found_record_is_cached_witness :
  let w := Cloud.holding (Cloud.record "v-127" "o-23" 4 "Running") in
  let found := get_k8s Cloud.api Cloud.task (init w) in
  let by_name := ("listKubernetesClusters", {[ "name" := VStr "k8s-cluster-01" ]}) in
  get_k8s Cloud.api Cloud.task found.2
  = (Ok (Cloud.record "v-127" "o-23" 4 "Running"), found.2)
  ∧ calls (get_k8s Cloud.api Cloud.task
             (get_k8s Cloud.api Cloud.task (init Cloud.empty)).2).2
    = [by_name; by_name].
Proof.
  intros w found by_name. split.
  - apply (found_record_is_cached Cloud.api Cloud.task (init w)).
    + vm_compute. reflexivity.
    + reflexivity.
  - destruct (found_record_is_cached Cloud.api Cloud.task (init Cloud.empty))
      as [_ H].
    destruct (H (VDict ∅) Cloud.empty (VDict ∅) Cloud.empty) as [H1 H2].
    + reflexivity.
    + reflexivity.
    + vm_compute. reflexivity.
    + reflexivity.
    + vm_compute. reflexivity.
    + reflexivity.
    + rewrite H1. cbn [snd]. rewrite H2. vm_compute. reflexivity.
Defined.


(** A listing that has a count and no list of clusters raises a key error;
    one with an empty list raises an index error. *)
Lemma malformed_listing_raises_witness :
  let keyless : string → gmap string value → unit → outcome value * unit :=
    λ _ _ w, (Ok (VDict {[ "count" := VInt 0 ]}), w) in
  let listless : string → gmap string value → unit → outcome value * unit :=
    λ _ _ w, (Ok (VDict {[ "kubernetescluster" := VList [] ]}), w) in
  (get_k8s keyless Cloud.task (init tt)).1 = Raise (KeyError "kubernetescluster")
  ∧ (get_k8s listless Cloud.task (init tt)).1 = Raise IndexError.
Proof.
  intros keyless listless. split.
  - destruct (malformed_listing_raises keyless Cloud.task (init tt)
                {[ "count" := VInt 0 ]} tt) as [H _].
    + reflexivity.
    + reflexivity.
    + reflexivity.
    + apply (keyed_dict_is_not_empty _ "count" (VInt 0)). vm_compute. reflexivity.
    + rewrite H; [reflexivity|vm_compute; reflexivity].
  - destruct (malformed_listing_raises listless Cloud.task (init tt)
                {[ "kubernetescluster" := VList [] ]} tt) as [_ H].
    + reflexivity.
    + reflexivity.
    + reflexivity.
    + apply (keyed_dict_is_not_empty _ "kubernetescluster" (VList [])).
      vm_compute. reflexivity.
    + rewrite H; [reflexivity|vm_compute; reflexivity].
Defined.

(** A record that has its configuration is returned with no call; one that
    has none is completed by one call and kept. *)
Lemma config_fetch_is_lazy_witness :
  let bare := Cloud.record "v-127" "o-23" 4 "Running" in
  let full := Cloud.update [("config", VStr "apiVersion: v1")] bare in
  let w := Cloud.holding bare in
  _k8s_config Cloud.api Cloud.task (with_k8s full (init w))
  = (Ok full, with_k8s full (init w))
  ∧ (_k8s_config Cloud.api Cloud.task (with_k8s bare (init w))).1 = Ok full
  ∧ calls (_k8s_config Cloud.api Cloud.task (with_k8s bare (init w))).2
    = [("getKubernetesClusterConfig", {[ "id" := VStr "k8s-1" ]})]
  ∧ self_k8s (_k8s_config Cloud.api Cloud.task (with_k8s bare (init w))).2 = full.
Proof.
  intros bare full w. split.
  - destruct (config_fetch_is_lazy Cloud.api Cloud.task (with_k8s full (init w))
                (<[ "config" := VStr "apiVersion: v1" ]>
                   (list_to_map [("id", VStr "k8s-1");
                                 ("name", VStr "k8s-cluster-01");
                                 ("kubernetesversionid", VStr "v-127");
                                 ("serviceofferingid", VStr "o-23");
                                 ("size", VInt 4);
                                 ("state", VStr "Running")]))) as [H _].
    + vm_compute. reflexivity.
    + apply (keyed_dict_is_not_empty _ "id" (VStr "k8s-1")). vm_compute. reflexivity.
    + rewrite H.
      * vm_compute. reflexivity.
      * eexists. vm_compute. reflexivity.
  - destruct (config_fetch_is_lazy Cloud.api Cloud.task (with_k8s bare (init w))
                (list_to_map [("id", VStr "k8s-1");
                              ("name", VStr "k8s-cluster-01");
                              ("kubernetesversionid", VStr "v-127");
                              ("serviceofferingid", VStr "o-23");
                              ("size", VInt 4);
                              ("state", VStr "Running")])) as (_ & _ & H).
    + reflexivity.
    + apply (keyed_dict_is_not_empty _ "id" (VStr "k8s-1")). vm_compute. reflexivity.
    + destruct (H eq_refl (VStr "k8s-1")
                  (VDict {[ "clusterconfig" :=
                              VDict {[ "configdata" := VStr "apiVersion: v1" ]} ]})
                  w) as [_ H'].
      * vm_compute. reflexivity.
      * vm_compute. reflexivity.
      * rewrite (H' (VDict {[ "configdata" := VStr "apiVersion: v1" ]})
                   (VStr "apiVersion: v1")).
        -- split; [vm_compute; reflexivity|].
           split; vm_compute; reflexivity.
        -- vm_compute. reflexivity.
        -- vm_compute. reflexivity.
Defined.

(** A task that names an unknown version on an existing cluster fails with
    the resolver's message, with no mutating call and nothing reported as
    changed. *)
Lemma unresolved_reference_changes_nothing_witness :
  let w := Cloud.holding (Cloud.record "v-126" "o-42" 2 "Running") in
  let p := Cloud.with_version_name (Some "v9.9.9") Cloud.task in
  (Cloud.run p w).1 = FailJson "version 'v9.9.9' not found"
  ∧ mutating_calls (calls (Cloud.run p w).2) = []
  ∧ changed (Cloud.run p w).2 = Some (VBool false).
Proof.
  intros w p.
  pose (g := get_k8s Cloud.api p (init w)).
  pose (v := get_version Cloud.api p "id" g.2).
  destruct (unresolved_reference_changes_nothing Cloud.api Cloud.poll Cloud.resolve
              Cloud.get_result p (init w) (Cloud.value_of g.1) g.2 (VStr "k8s-1"))
    as [H _].
  - discriminate.
  - vm_compute. reflexivity.
  - vm_compute. reflexivity.
  - destruct (H "version 'v9.9.9' not found" v.2) as (Hrun & Hcalls & Hchanged).
    + vm_compute. reflexivity.
    + unfold Cloud.run. rewrite Hrun.
      split; [reflexivity|]. cbn [snd]. split.
      * rewrite Hcalls. vm_compute. reflexivity.
      * rewrite Hchanged. vm_compute. reflexivity.
Defined.


(** A create that is not polled returns the handle of the job, and the
    invocation raises a key error when it reads the state of the handle. *)
Lemma stateless_step_never_ends_well_witness :
  let p := Cloud.with_poll_async false Cloud.task in
  (Cloud.run p Cloud.empty).1 = Raise (KeyError "state")
  ∧ Cloud.commands (Cloud.run p Cloud.empty)
    = ["listKubernetesClusters"; "listKubernetesSupportedVersions";
       "listServiceOfferings"; "createKubernetesCluster";
       "getKubernetesClusterConfig"].
Proof.
  intros p.
  pose (g := get_k8s Cloud.api p (init Cloud.empty)).
  pose (c := _create_k8s Cloud.api Cloud.poll Cloud.resolve p g.2).
  pose (d := <[ "jobid" := VStr "job-1" ]> {[ "id" := VStr "k8s-1" ]}
             : gmap string value).
  pose (k := _k8s_config Cloud.api p (with_k8s (VDict d) c.2)).
  destruct (stateless_step_never_ends_well Cloud.api Cloud.poll Cloud.resolve
              Cloud.get_result p (init Cloud.empty) (Cloud.value_of g.1) g.2 d c.2)
    as [H _].
  - discriminate.
  - vm_compute. reflexivity.
  - vm_compute. reflexivity.
  - apply (keyed_dict_is_not_empty _ "id" (VStr "k8s-1")). vm_compute. reflexivity.
  - vm_compute. reflexivity.
  - unfold Cloud.commands, Cloud.run.
    rewrite (H (Cloud.value_of k.1) k.2).
    + split; [reflexivity|vm_compute; reflexivity].
    + vm_compute. reflexivity.
Defined.

(** The first run of the first example creates the cluster and reports a
    change. *)
Lemma mutation_is_reported_witness :
  changed (Cloud.run Cloud.task Cloud.empty).2 = Some (VBool true).
Proof.
  apply (mutation_is_reported Cloud.api Cloud.poll Cloud.resolve Cloud.get_result
           Cloud.task Cloud.empty).
  apply headed_list_is_not_nil. vm_compute. exact I.
Defined.

(** An invocation that finds the cluster lists the clusters once. *)
Lemma found_cluster_is_not_listed_again_witness :
  let w := Cloud.holding (Cloud.record "v-126" "o-42" 2 "Stopped") in
  count_calls "listKubernetesClusters" (calls (Cloud.run Cloud.task w).2) = 1%nat.
Proof.
  intros w.
  pose (g := get_k8s Cloud.api Cloud.task (init w)).
  transitivity (count_calls "listKubernetesClusters" (calls g.2)).
  - apply (found_cluster_is_not_listed_again Cloud.api Cloud.poll Cloud.resolve
             Cloud.get_result Cloud.task (init w) (Cloud.value_of g.1) g.2).
    + vm_compute. reflexivity.
    + vm_compute. reflexivity.
  - vm_compute. reflexivity.
Defined.

(** The first run of the first example reports a change and has made a
    mutating call. *)
Lemma change_is_reported_when_made_witness :
  let r := Cloud.run Cloud.task Cloud.empty in
  changed r.2 = Some (VBool true) ↔ mutating_calls (calls r.2) ≠ [].
Proof.
  intros r.
  apply (change_is_reported_when_made Cloud.api Cloud.poll Cloud.resolve
           Cloud.get_result Cloud.task Cloud.empty
           (match r.1 with Ok report => report | _ => ∅ end) r.2).
  - reflexivity.
  - vm_compute. reflexivity.
Defined.

(** A cluster that differs from the task in its version only is upgraded
    and, without polling, scaled as well. *)
Lemma unpolled_upgrade_is_followed_by_scale_witness :
  let w := Cloud.holding (Cloud.record "v-126" "o-23" 4 "Running") in
  let p := Cloud.with_poll_async false Cloud.task in
  let found := (get_k8s Cloud.api p (init w)).2 in
  (calls (_update_k8s Cloud.api Cloud.poll p found).2).*1
  = ["listKubernetesClusters"; "listKubernetesSupportedVersions";
     "listServiceOfferings"; "upgradeKubernetesCluster"; "scaleKubernetesCluster"].
Proof.
  intros w p found.
  pose (v := get_version Cloud.api p "id" found).
  pose (o := get_service_offering Cloud.api p "id" v.2).
  pose (u := Cloud.api "upgradeKubernetesCluster"
               (upgrade_args (VStr "k8s-1") (VStr "v-127")) (remote o.2)).
  rewrite (unpolled_upgrade_is_followed_by_scale Cloud.api Cloud.poll p found
             (VStr "k8s-1") (VStr "v-127") v.2 (VStr "o-23") o.2
             (Cloud.value_of u.1) u.2).
  - vm_compute. reflexivity.
  - reflexivity.
  - reflexivity.
  - vm_compute. reflexivity.
  - vm_compute. reflexivity.
  - vm_compute. reflexivity.
  - intros E. inversion E.
  - vm_compute. reflexivity.
  - vm_compute. reflexivity.
  - vm_compute. reflexivity.
Defined.

